(** * Paragraph reconstruction and field classification of the PDF extractor

    A shallow embedding of [text_processor.py] (class [TextProcessor]) and of
    the classification part of [advanced_pdf_extractor.py]
    (class [AdvancedPDFExtractor]), together with the properties of the
    specification that concern them.

    Conventions of the embedding:
    - a Python [str] is the list of its Unicode code points ([N]);
    - a [dict] with a fixed set of keys is a record of optional fields, a
      missing key being [None]; subscription [d["k"]] of a missing key raises
      [KeyError], [d.get("k", v)] does not;
    - a block is embedded as a value: [block.copy()] is the block itself.
      The copy of the source is shallow, so the list of spans of a paragraph
      is the list object of the fragment that opened it; the embedding
      covers inputs whose fragments do not share their lists of spans, as
      [extract_text_with_styles] builds them;
    - font sizes are Python numbers; they are embedded as exact rationals
      ([Q]), so the rounding of binary floating point is not modelled;
    - the regular expressions of the source are terms of [Py.regex], run by a
      backtracking matcher that explores alternatives in the order of
      Python's [re] module;
    - the tables of the Unicode character database that the source reaches
      through [\d], [str.lower] and [re.IGNORECASE] are the fields of the
      class [Py.UnicodeDB]. *)

From Stdlib Require Import List NArith ZArith QArith Qminmax Bool Arith Lia Lqa.
From Stdlib Require Import String Ascii.
Import ListNotations.
Close Scope Q_scope.

Set Implicit Arguments.

(* ------------------------------------------------------------------ *)
(** ** The Python runtime used by the program *)

Module Py.

Definition char := N.
Definition str := list char.

(** ASCII literals of the source. *)
Definition lit (s : string) : str := map N_of_ascii (list_ascii_of_string s).

Definition str_eqb (a b : str) : bool :=
  if list_eq_dec N.eq_dec a b then true else false.

(** Exceptions the modelled code can raise. *)
Inductive exn := KeyError (key : string).

Inductive result (A : Type) :=
| Ok (a : A)
| Raise (e : exn).
Arguments Ok {A} a.
Arguments Raise {A} e.

Definition bind {A B} (m : result A) (f : A -> result B) : result B :=
  match m with
  | Ok a => f a
  | Raise e => Raise e
  end.

Notation "x <- m ;; k" := (bind m (fun x => k))
  (at level 61, m at next level, right associativity).

(** [d["key"]] on a dict whose entry for ["key"] is [o]. *)
Definition subscript {A} (key : string) (o : option A) : result A :=
  match o with
  | Some a => Ok a
  | None => Raise (KeyError key)
  end.

(** [d.get("key", dflt)]. *)
Definition get {A} (o : option A) (dflt : A) : A :=
  match o with
  | Some a => a
  | None => dflt
  end.

Definition has_key {A} (o : option A) : bool :=
  match o with
  | Some _ => true
  | None => false
  end.

(** *** Character classes *)

Definition in_range (lo hi c : N) : bool := ((lo <=? c) && (c <=? hi))%N.

(** [str.isspace] on one character, which is also what [\s] matches in a
    [str] pattern (CPython's [Py_UNICODE_ISSPACE]). *)
Definition isspace (c : char) : bool :=
  in_range 0x09 0x0D c || in_range 0x1C 0x20 c ||
  (c =? 0x85)%N || (c =? 0xA0)%N || (c =? 0x1680)%N ||
  in_range 0x2000 0x200A c || (c =? 0x2028)%N || (c =? 0x2029)%N ||
  (c =? 0x202F)%N || (c =? 0x205F)%N || (c =? 0x3000)%N.

Definition is_upper_AZ (c : char) : bool := in_range 0x41 0x5A c.  (* [A-Z] *)
Definition is_lower_az (c : char) : bool := in_range 0x61 0x7A c.  (* [a-z] *)
Definition is_cjk (c : char) : bool := in_range 0x4e00 0x9fff c.   (* [一-鿿] *)
Definition one_of (cs : list char) (c : char) : bool := existsb (N.eqb c) cs.

(** Comparisons of Python numbers. *)
Definition Qgtb (a b : Q) : bool := negb (Qle_bool a b).   (* a > b *)
Definition Qgeb (a b : Q) : bool := Qle_bool b a.          (* a >= b *)

(** The part of the Unicode character database the program depends on. *)
Class UnicodeDB := {
  (** [\d] of a [str] pattern: the decimal digits of category Nd. *)
  isdecimal : char -> bool;
  (** [str.lower]. *)
  lower : str -> str;
  (** Whether a literal pattern character matches a subject character under
      [re.IGNORECASE]. *)
  ci_eq : char -> char -> bool;
  (** The empty text has no character to convert. *)
  lower_empty : lower [] = []
}.

(** The database on the Basic Latin block: the digits [0-9], the case pairs
    [A-Z]/[a-z]; every other character is no digit and has no case, as is
    true of the CJK ideographs and of the CJK and fullwidth punctuation. *)
Definition ascii_lower (c : char) : char :=
  if is_upper_AZ c then (c + 32)%N else c.

Definition basic_latin : UnicodeDB := {|
  isdecimal := in_range 0x30 0x39;
  lower := map ascii_lower;
  ci_eq := fun p c => (ascii_lower p =? ascii_lower c)%N;
  lower_empty := eq_refl
|}.

(** *** [str] methods *)

Fixpoint lstrip (s : str) : str :=
  match s with
  | [] => []
  | c :: s' => if isspace c then lstrip s' else s
  end.

Definition rstrip (s : str) : str := rev (lstrip (rev s)).

Definition strip (s : str) : str := rstrip (lstrip s).

Fixpoint startswith (s p : str) {struct p} : bool :=
  match p, s with
  | [], _ => true
  | _ :: _, [] => false
  | a :: p', c :: s' => (c =? a)%N && startswith s' p'
  end.

Definition endswith (s p : str) : bool := startswith (rev s) (rev p).

(** The last character, [s[-1]], of a text that has one. *)
Fixpoint last_char (s : str) : option char :=
  match s with
  | [] => None
  | [c] => Some c
  | _ :: s' => last_char s'
  end.

(** [p in s]. *)
Fixpoint contains (p s : str) : bool :=
  startswith s p ||
  match s with
  | [] => false
  | _ :: s' => contains p s'
  end.

(** [s.replace(old, new)]; [skip] counts the characters of a replaced
    occurrence that are still to be passed over. *)
Fixpoint replace_from (old new : str) (skip : nat) (s : str) : str :=
  match s with
  | [] => []
  | c :: s' =>
      match skip with
      | S k => replace_from old new k s'
      | O =>
          if startswith s old
          then new ++ replace_from old new (List.length old - 1) s'
          else c :: replace_from old new 0 s'
      end
  end.

Definition replace (s old new : str) : str :=
  match old with
  | [] => new ++ flat_map (fun c => c :: new) s
  | _ :: _ => replace_from old new 0 s
  end.

(** [s.split()]: the maximal runs of non-whitespace characters. *)
Fixpoint split_from (cur : str) (s : str) : list str :=
  match s with
  | [] => match cur with [] => [] | _ :: _ => [rev cur] end
  | c :: s' =>
      if isspace c
      then match cur with
           | [] => split_from [] s'
           | _ :: _ => rev cur :: split_from [] s'
           end
      else split_from (c :: cur) s'
  end.

Definition split (s : str) : list str := split_from [] s.

(** Stable sort by decreasing key: [sorted(l, key=key, reverse=True)]. *)
Fixpoint insert_desc {A} (key : A -> Q) (x : A) (l : list A) : list A :=
  match l with
  | [] => [x]
  | y :: l' => if Qgtb (key y) (key x) then y :: insert_desc key x l' else x :: l
  end.

Definition sorted_desc {A} (key : A -> Q) (l : list A) : list A :=
  fold_right (insert_desc key) [] l.

Definition is_empty (s : str) : bool :=
  match s with
  | [] => true
  | _ :: _ => false
  end.

(** [sep.join(parts)]. *)
Fixpoint join (sep : str) (parts : list str) : str :=
  match parts with
  | [] => []
  | [p] => p
  | p :: rest => p ++ sep ++ join sep rest
  end.

(** *** Regular expressions *)

Inductive regex :=
| Eps
| Cls (p : char -> bool)        (* a character class or a literal *)
| Cat (r1 r2 : regex)
| Alt (r1 r2 : regex)           (* r1|r2, r1 tried first *)
| Star (r : regex)              (* r*, greedy *)
| LazyStar (r : regex)          (* r*?, lazy *)
| Grp (r : regex)               (* the capturing group, (r) *)
| Bol                           (* ^ *)
| Eol.                          (* $ *)

Definition Chr (c : char) : regex := Cls (N.eqb c).
Definition Plus (r : regex) : regex := Cat r (Star r).          (* r+ *)
Definition LazyPlus (r : regex) : regex := Cat r (LazyStar r).  (* r+? *)
Definition Opt (r : regex) : regex := Alt r Eps.                (* r? *)

Fixpoint Rep (n : nat) (r : regex) : regex :=                   (* r{n} *)
  match n with
  | O => Eps
  | S n' => Cat r (Rep n' r)
  end.

Definition AtLeast (n : nat) (r : regex) : regex := Cat (Rep n r) (Star r). (* r{n,} *)

(** The concatenation of the items of a pattern, in order. *)
Fixpoint Seq (rs : list regex) : regex :=
  match rs with
  | [] => Eps
  | [r] => r
  | r :: rs' => Cat r (Seq rs')
  end.

Fixpoint Lit (s : str) : regex :=
  match s with
  | [] => Eps
  | c :: s' => Cat (Chr c) (Lit s')
  end.

(** A literal under [re.IGNORECASE]. *)
Fixpoint LitCI {U : UnicodeDB} (s : str) : regex :=
  match s with
  | [] => Eps
  | c :: s' => Cat (Cls (ci_eq c)) (LitCI s')
  end.

(** The state of a match attempt: the offset reached in the subject, the
    subject from there on, and the text captured by the group so far. *)
Record mstate := MState {
  m_pos : nat;
  m_rest : str;
  m_group : option str
}.

(** Backtracking matcher in continuation-passing style: [k] is what has to
    match after [r].  An iteration of a star that consumes nothing is not
    repeated. *)
Fixpoint rmatch {A} (r : regex) (st : mstate) (k : mstate -> option A) : option A :=
  match r with
  | Eps => k st
  | Cls p =>
      match m_rest st with
      | c :: s' => if p c then k (MState (S (m_pos st)) s' (m_group st)) else None
      | [] => None
      end
  | Cat r1 r2 => rmatch r1 st (fun st' => rmatch r2 st' k)
  | Alt r1 r2 =>
      match rmatch r1 st k with
      | Some a => Some a
      | None => rmatch r2 st k
      end
  | Star r1 =>
      (fix loop (fuel : nat) (st : mstate) {struct fuel} : option A :=
         match fuel with
         | O => k st
         | S fuel' =>
             match rmatch r1 st (fun st' =>
                     if m_pos st <? m_pos st' then loop fuel' st' else None) with
             | Some a => Some a
             | None => k st
             end
         end) (S (List.length (m_rest st))) st
  | LazyStar r1 =>
      (fix loop (fuel : nat) (st : mstate) {struct fuel} : option A :=
         match fuel with
         | O => k st
         | S fuel' =>
             match k st with
             | Some a => Some a
             | None =>
                 rmatch r1 st (fun st' =>
                   if m_pos st <? m_pos st' then loop fuel' st' else None)
             end
         end) (S (List.length (m_rest st))) st
  | Grp r1 =>
      rmatch r1 st (fun st' =>
        k (MState (m_pos st') (m_rest st')
                  (Some (firstn (m_pos st' - m_pos st) (m_rest st)))))
  | Bol => if m_pos st =? 0 then k st else None
  | Eol =>
      match m_rest st with
      | [] => k st
      | [c] => if (c =? 0x0A)%N then k st else None
      | _ => None
      end
  end.

(** A match object: [m.start()], [m.end()] and [m.group(1)]. *)
Record match_obj := MatchObj {
  m_start : nat;
  m_end : nat;
  group1 : option str
}.

(** A match attempt anchored at offset [pos], [s] being the subject from
    [pos] on. *)
Definition match_at (r : regex) (pos : nat) (s : str) : option match_obj :=
  rmatch r (MState pos s None)
         (fun st => Some (MatchObj pos (m_pos st) (m_group st))).

(** [re.match(r, s)]. *)
Definition re_match (r : regex) (s : str) : option match_obj := match_at r 0 s.

Fixpoint search_from (r : regex) (pos : nat) (s : str) : option match_obj :=
  match match_at r pos s with
  | Some m => Some m
  | None =>
      match s with
      | [] => None
      | _ :: s' => search_from r (S pos) s'
      end
  end.

(** [re.search(r, s)]. *)
Definition re_search (r : regex) (s : str) : option match_obj := search_from r 0 s.

Definition is_match (m : option match_obj) : bool :=
  match m with
  | Some _ => true
  | None => false
  end.

(** A replacement template: literal characters and [\1]. *)
Inductive tpl_item := TChr (c : char) | TGroup1.

Definition expand (tpl : list tpl_item) (m : match_obj) : str :=
  flat_map (fun t => match t with
                     | TChr c => [c]
                     | TGroup1 => get (group1 m) []
                     end) tpl.

(** The scan of [re.sub] and [re.findall]: [skip] counts the characters of
    the last match still to be passed over, [count] the replacements still
    allowed ([None]: no limit).  Every pattern of the program consumes at
    least one character when it matches; after a match of width 0 the scan
    moves on by one character. *)
Fixpoint sub_from (r : regex) (tpl : list tpl_item) (count : option nat)
         (skip : nat) (pos : nat) (s : str) : str :=
  let exhausted := match count with Some O => true | _ => false end in
  let attempt := if exhausted then None else
                 match skip with O => match_at r pos s | S _ => None end in
  match attempt with
  | Some m =>
      let count' := option_map pred count in
      expand tpl m ++
      match s with
      | [] => []
      | c :: s' =>
          let w := m_end m - m_start m in
          match w with
          | O => c :: sub_from r tpl count' 0 (S pos) s'
          | S w' => sub_from r tpl count' w' (S pos) s'
          end
      end
  | None =>
      match s with
      | [] => []
      | c :: s' =>
          match skip with
          | O => c :: sub_from r tpl count 0 (S pos) s'
          | S k => sub_from r tpl count k (S pos) s'
          end
      end
  end.

(** [re.sub(r, tpl, s)] and [re.sub(r, tpl, s, count)]. *)
Definition re_sub (r : regex) (tpl : list tpl_item) (s : str) : str :=
  sub_from r tpl None 0 0 s.

Definition re_sub_count (r : regex) (tpl : list tpl_item) (s : str) (count : nat) : str :=
  sub_from r tpl (match count with O => None | S _ => Some count end) 0 0 s.

Fixpoint findall_from (r : regex) (skip : nat) (pos : nat) (s : str) : list str :=
  match skip with
  | S k =>
      match s with
      | [] => []
      | _ :: s' => findall_from r k (S pos) s'
      end
  | O =>
      match match_at r pos s with
      | Some m =>
          let w := m_end m - m_start m in
          firstn w s ::
          match s with
          | [] => []
          | _ :: s' => findall_from r (pred w) (S pos) s'
          end
      | None =>
          match s with
          | [] => []
          | _ :: s' => findall_from r 0 (S pos) s'
          end
      end
  end.

(** [re.findall(r, s)] for a pattern without group. *)
Definition re_findall (r : regex) (s : str) : list str := findall_from r 0 0 s.

End Py.

(* ------------------------------------------------------------------ *)
(** ** text_processor.py *)

Module TextProcessor.
Import Py.

(** A style span: the dict built per span by [extract_text_with_styles]. *)
Record style := Style {
  s_text : option str;
  s_is_italic : option bool;
  s_is_bold : option bool;
  s_font_name : option str;
  s_font_size : option Q
}.

(** A text block: the dict of a fragment, and of a paragraph under
    construction. *)
Record text_block := Block {
  b_page : option N;
  b_text : option str;
  b_styles : option (list style);
  b_avg_font_size : option Q
}.

(** Truth value of the dict: it has at least one key. *)
Definition dict_truthy (b : text_block) : bool :=
  has_key (b_page b) || has_key (b_text b) ||
  has_key (b_styles b) || has_key (b_avg_font_size b).

Definition set_text (b : text_block) (t : str) : text_block :=
  Block (b_page b) (Some t) (b_styles b) (b_avg_font_size b).
Definition set_styles (b : text_block) (l : list style) : text_block :=
  Block (b_page b) (b_text b) (Some l) (b_avg_font_size b).
Definition set_avg_font_size (b : text_block) (q : Q) : text_block :=
  Block (b_page b) (b_text b) (b_styles b) (Some q).

(** The state of the loop of [clean_and_merge_paragraphs]. *)
Record loop_state := LoopState {
  merged_blocks : list text_block;
  current_block : option text_block
}.

(** The same state with, next to every paragraph, the fragments merged into
    it so far (specification-only bookkeeping). *)
Record traced_state := TracedState {
  t_merged : list (text_block * list text_block);
  t_current : option (text_block * list text_block)
}.

(** [.!?。！？] *)
Definition sentence_end : char -> bool := one_of [0x2E; 0x21; 0x3F; 0x3002; 0xff01; 0xff1f]%N.
(** [,，\-\s] and [-,，\s] *)
Definition comma_hyphen_space (c : char) : bool := one_of [0x2C; 0xff0c; 0x2D]%N c || isspace c.
(** [,，;；] *)
Definition comma_semicolon : char -> bool := one_of [0x2C; 0xff0c; 0x3B; 0xff1b]%N.

Definition chapter_keywords : list str :=
  [lit "Chapter"; lit "Part"; lit "Section";
   [0x7b2c]; [0x7ae0]; [0x7bc0]; [0x7bc7]]%N.

Section WithUnicode.
Context {U : UnicodeDB}.

(** r'^[A-Z][a-zA-Z\s]{10,}' *)
Definition re_english_heading : regex :=
  Seq [Bol; Cls is_upper_AZ;
       AtLeast 10 (Cls (fun c => is_lower_az c || is_upper_AZ c || isspace c))].

(** r'^[\u4e00-\u9fff]{2,}[：:：]' *)
Definition re_chinese_heading : regex :=
  Seq [Bol; AtLeast 2 (Cls is_cjk); Cls (one_of [0xff1a; 0x3A; 0xff1a]%N)].

(** r'^\d+[\.\)]\s*' *)
Definition re_numbered : regex :=
  Seq [Bol; Plus (Cls isdecimal); Cls (one_of [0x2E; 0x29]%N); Star (Cls isspace)].

Definition _is_new_paragraph (text : str) (block : text_block) : bool :=
  let avg_font_size := get (b_avg_font_size block) 12%Q in
  if Qgtb avg_font_size 14 then true else
  let styles := get (b_styles block) [] in
  if existsb (fun style => get (s_is_bold style) false) styles then true else
  if is_match (re_match re_english_heading text) then true else
  if is_match (re_match re_chinese_heading text) then true else
  if is_match (re_match re_numbered text) then true else
  if existsb (fun keyword => startswith text keyword) chapter_keywords then true else
  false.

Definition _should_merge_texts (text1 text2 : str) : bool :=
  let text1 := strip text1 in
  let text2 := strip text2 in
  if is_match (re_search (Seq [Cls sentence_end; Eol]) text1) then false else
  if is_match (re_match (Seq [Bol; Cls is_upper_AZ]) text2) then
    if is_match (re_search (Seq [Cls comma_hyphen_space; Eol]) text1)
       || (List.length text1 <? 30)
       || negb (is_match (re_search (Cls sentence_end) text1))
    then true
    else false
  else
  if is_match (re_match (Seq [Bol; Cls is_lower_az]) text2) then true else
  if is_match (re_search (Seq [Cls comma_hyphen_space; Eol]) text1) then true else
  if (List.length text1 <? 50) && (List.length text2 <? 50) then true else
  false.

Definition _smart_join_texts (text1 text2 : str) : str :=
  let text1 := strip text1 in
  let text2 := strip text2 in
  if endswith text1 (lit "-") then removelast text1 ++ text2 else
  if endswith text1 (lit " ") then text1 ++ text2 else
  if is_match (re_match (Seq [Bol; Cls is_lower_az]) text2) then text1 ++ lit " " ++ text2 else
  if is_match (re_search (Seq [Cls comma_semicolon; Eol]) text1) then text1 ++ lit " " ++ text2 else
  text1 ++ lit " " ++ text2.

(** The merge of [block] into [current_block] (the body of the
    [if self._should_merge_texts(...)] branch), [text] being the stripped
    text of [block]. *)
Definition merge_into (current_block : text_block) (current_text text : str)
           (block : text_block) : text_block :=
  let merged_text := _smart_join_texts current_text text in
  let current_block := set_text current_block merged_text in
  let current_block :=
    match b_styles block, b_styles current_block with
    | Some new_styles, Some styles => set_styles current_block (styles ++ new_styles)
    | _, _ => current_block
    end in
  match b_avg_font_size block, b_avg_font_size current_block with
  | Some _, Some _ =>
      let current_size := get (b_avg_font_size current_block) 12%Q in
      let block_size := get (b_avg_font_size block) 12%Q in
      set_avg_font_size current_block ((current_size + block_size) / 2)%Q
  | _, _ => current_block
  end.

(** One iteration of the [for] loop. *)
Definition loop_body (st : loop_state) (block : text_block) : result loop_state :=
  let text := strip (get (b_text block) []) in
  match text with
  | [] => Ok st
  | _ :: _ =>
      let is_new_paragraph := _is_new_paragraph text block in
      match current_block st with
      | None => Ok (LoopState (merged_blocks st) (Some block))
      | Some current =>
          if is_new_paragraph then
            Ok (LoopState (if dict_truthy current
                           then merged_blocks st ++ [current]
                           else merged_blocks st)
                          (Some block))
          else
            bind (subscript "text" (b_text current)) (fun current_text =>
            if _should_merge_texts current_text text then
              Ok (LoopState (merged_blocks st)
                            (Some (merge_into current current_text text block)))
            else
              Ok (LoopState (merged_blocks st ++ [current]) (Some block)))
      end
  end.

Fixpoint run_loop (st : loop_state) (text_blocks : list text_block) : result loop_state :=
  match text_blocks with
  | [] => Ok st
  | block :: rest => bind (loop_body st block) (fun st' => run_loop st' rest)
  end.

Definition finish (st : loop_state) : list text_block :=
  match current_block st with
  | Some current =>
      if dict_truthy current then merged_blocks st ++ [current] else merged_blocks st
  | None => merged_blocks st
  end.

Definition clean_and_merge_paragraphs (text_blocks : list text_block) : result (list text_block) :=
  match text_blocks with
  | [] => Ok text_blocks
  | _ :: _ =>
      bind (run_loop (LoopState [] None) text_blocks) (fun st => Ok (finish st))
  end.

(** The loop again, recording for every paragraph the fragments it was
    built from; [clean_and_merge_traced_erase] relates it to the loop
    above. *)
Definition traced_body (st : traced_state) (block : text_block) : result traced_state :=
  let text := strip (get (b_text block) []) in
  match text with
  | [] => Ok st
  | _ :: _ =>
      let is_new_paragraph := _is_new_paragraph text block in
      match t_current st with
      | None => Ok (TracedState (t_merged st) (Some (block, [block])))
      | Some (current, parts) =>
          if is_new_paragraph then
            Ok (TracedState (if dict_truthy current
                             then t_merged st ++ [(current, parts)]
                             else t_merged st)
                            (Some (block, [block])))
          else
            bind (subscript "text" (b_text current)) (fun current_text =>
            if _should_merge_texts current_text text then
              Ok (TracedState (t_merged st)
                    (Some (merge_into current current_text text block,
                           parts ++ [block])))
            else
              Ok (TracedState (t_merged st ++ [(current, parts)])
                              (Some (block, [block]))))
      end
  end.

Fixpoint run_traced (st : traced_state) (text_blocks : list text_block) : result traced_state :=
  match text_blocks with
  | [] => Ok st
  | block :: rest => bind (traced_body st block) (fun st' => run_traced st' rest)
  end.

Definition finish_traced (st : traced_state) : list (text_block * list text_block) :=
  match t_current st with
  | Some (current, parts) =>
      if dict_truthy current then t_merged st ++ [(current, parts)] else t_merged st
  | None => t_merged st
  end.

Definition clean_and_merge_traced (text_blocks : list text_block)
  : result (list (text_block * list text_block)) :=
  match text_blocks with
  | [] => Ok []
  | _ :: _ =>
      bind (run_traced (TracedState [] None) text_blocks)
           (fun st => Ok (finish_traced st))
  end.

(** [clean_text_content]. *)
Definition clean_text_content (text : str) : str :=
  match text with
  | [] => text
  | _ :: _ =>
      let text := re_sub (Plus (Cls isspace)) [TChr 0x20%N] text in
      let text := strip text in
      let text := re_sub (Seq [Plus (Cls isspace); Grp (Cls sentence_end)]) [TGroup1] text in
      let text := re_sub (Seq [Plus (Cls isspace); Grp (Cls comma_semicolon)]) [TGroup1] text in
      let text := re_sub (Seq [Chr 0x28%N; Plus (Cls isspace)]) [TChr 0x28%N] text in
      let text := re_sub (Seq [Plus (Cls isspace); Chr 0x29%N]) [TChr 0x29%N] text in
      text
  end.

End WithUnicode.
End TextProcessor.

(* ------------------------------------------------------------------ *)
(** ** advanced_pdf_extractor.py *)

Module AdvancedPDFExtractor.
Import Py TextProcessor.

(** The entries of [self.classification_rules] read by
    [smart_classify_content].  A keyword is spliced into a pattern as it is;
    it is embedded as a literal, which is what a keyword without regular
    expression operators denotes (all built-in ones are such). *)
Record classification_rules := Rules {
  author_keywords : list str;
  translator_keywords : list str;
  illustrator_keywords : list str
}.

(** [default_rules] of [load_classification_rules]. *)
Definition default_rules : classification_rules := {|
  author_keywords := [lit "author"; [0x4f5c; 0x8005]; lit "by"]%N;
  translator_keywords := [lit "translator"; [0x7ffb; 0x8b6f]; lit "translated by"]%N;
  illustrator_keywords := [lit "illustrator"; [0x63d2; 0x756b]; lit "illustrated by"]%N
|}.

(** The dict [classified_data]; [ChineseTitle] is the key 中文書名. *)
Record classified_data := Classified {
  Title : str;
  ChineseTitle : str;
  Category : str;
  Author : str;
  Translator : str;
  Illustrator : str;
  Detail : str;
  RightsSold : str;
  MoreInfo : str;
  Tags : str
}.

(** The person fields and [used_lines] while the lines are scanned. *)
Record person_state := PersonState {
  p_author : str;
  p_translator : str;
  p_illustrator : str;
  used_lines : list str
}.

Definition is_alpha (c : char) : bool := is_upper_AZ c || is_lower_az c.  (* [A-Za-z] *)

(** [,，。\.] *)
Definition trailing_punct : char -> bool := one_of [0x2C; 0xff0c; 0x3002; 0x2E]%N.

Definition chinese_publication_keywords : list str :=
  [[0x51fa; 0x7248]; [0x9801; 0x6578]; [0x50f9; 0x683c]; lit "ISBN"]%N.

Definition detail_exclude_keywords : list str :=
  [lit "publisher"; lit "isbn"; lit "pages"; lit "price"; lit "format"; lit "volume";
   [0x51fa; 0x7248; 0x793e]; [0x9801; 0x6578]; [0x50f9; 0x683c]; [0x683c; 0x5f0f];
   [0x5c3a; 0x5bf8]; [0x7248; 0x6b21];
   lit "copyright"; [0x7248; 0x6b0a]; lit "printed"; [0x5370; 0x5237];
   lit "edition"; [0x7248; 0x672c]; lit "publication date";
   [0x51fa; 0x7248; 0x65e5; 0x671f]]%N.

Definition publisher_info_keywords : list str :=
  [lit "publisher"; lit "isbn"; lit "pages"; lit "price"; lit "format";
   [0x51fa; 0x7248; 0x793e]; [0x9801; 0x6578]; [0x50f9; 0x683c]; [0x683c; 0x5f0f];
   [0x7248; 0x6b0a]]%N.

Definition b_open : str := lit "<b>".
Definition b_close : str := lit "</b>".
Definition i_open : str := lit "<i>".
Definition i_close : str := lit "</i>".

(** [apply_html_formatting]. *)
Definition apply_html_formatting (text_block : text_block) : str :=
  match b_styles text_block with
  | None | Some [] => get (b_text text_block) []
  | Some (_ :: _) =>
      let text := get (b_text text_block) [] in
      let styles := get (b_styles text_block) [] in
      let has_italic := existsb (fun style => get (s_is_italic style) false) styles in
      let formatted_text := text in
      if has_italic then
        let italic_parts :=
          flat_map (fun style =>
            if get (s_is_italic style) false then
              let style_text := strip (get (s_text style) []) in
              if negb (is_empty style_text) && contains style_text formatted_text
              then [style_text] else []
            else []) styles in
        fold_left (fun formatted_text italic_part =>
                     let tagged := i_open ++ italic_part ++ i_close in
                     if negb (contains tagged formatted_text)
                     then replace formatted_text italic_part tagged
                     else formatted_text)
                  italic_parts formatted_text
      else formatted_text
  end.

(** [_should_merge_text], the variant kept in this class next to
    [smart_text_merge]; [smart_classify_content] does not call it. *)
Definition _should_merge_text (text1 text2 : str) : bool :=
  if is_match (re_search (Seq [Cls sentence_end; Eol]) (strip text1)) then false else
  if is_match (re_match (Seq [Bol; Cls (fun c => is_upper_AZ c || is_cjk c)]) (strip text2)) then
    if is_match (re_search (Seq [Cls (one_of [0x2C; 0xff0c]%N); Eol]) (strip text1))
       || negb (is_match (re_search (Cls sentence_end) text1))
    then true
    else false
  else
  if is_match (re_search (Seq [Cls comma_hyphen_space; Eol]) (strip text1)) then true else
  if is_match (re_match (Seq [Bol; Cls is_lower_az]) (strip text2)) then true else
  if (List.length (strip text1) <? 50) && (List.length (strip text2) <? 50) then true else
  false.

Section WithUnicode.
Context {U : UnicodeDB}.

(** (?:\s*\d+\s*$|$) *)
Definition re_page_or_end : regex :=
  Alt (Seq [Star (Cls isspace); Plus (Cls isdecimal); Star (Cls isspace); Eol]) Eol.

(** [:\s]* *)
Definition re_separator : regex := Star (Cls (fun c => (c =? 0x3A)%N || isspace c)).

(** rf"{keyword}[:\s]*([^,\n\d]+?)(?:\s*\d+\s*$|$)" with re.IGNORECASE *)
Definition re_author (keyword : str) : regex :=
  Seq [LitCI keyword; re_separator;
       Grp (LazyPlus (Cls (fun c => negb ((c =? 0x2C)%N || (c =? 0x0A)%N || isdecimal c))));
       re_page_or_end].

(** rf"{keyword}[:\s]*([^,\n]+?)(?:\s*\d+\s*$|$)" with re.IGNORECASE *)
Definition re_person (keyword : str) : regex :=
  Seq [LitCI keyword; re_separator;
       Grp (LazyPlus (Cls (fun c => negb ((c =? 0x2C)%N || (c =? 0x0A)%N))));
       re_page_or_end].

(** re.sub(r'\s*\d+\s*$', '', s) *)
Definition strip_trailing_number (s : str) : str :=
  re_sub (Seq [Star (Cls isspace); Plus (Cls isdecimal); Star (Cls isspace); Eol]) [] s.

(** re.sub(r'[,，。\.]+$', '', s) *)
Definition strip_trailing_punct (s : str) : str :=
  re_sub (Seq [Plus (Cls trailing_punct); Eol]) [] s.

(** re.sub(r'\s*pages?\s*\d*\s*$', '', s, re.IGNORECASE): the fourth
    positional argument of [re.sub] is [count], and [re.IGNORECASE] is 2. *)
Definition strip_pages (s : str) : str :=
  re_sub_count (Seq [Star (Cls isspace); Lit (lit "page"); Opt (Chr 0x73%N);
                     Star (Cls isspace); Star (Cls isdecimal); Star (Cls isspace); Eol])
               [] s 2.

(** re.search(r'^\d+$', s) *)
Definition all_digits (s : str) : bool :=
  is_match (re_search (Seq [Bol; Plus (Cls isdecimal); Eol]) s).

Definition group_text (m : match_obj) : str := get (group1 m) [].

(** The [for keyword in ...["author_keywords"]] loop on one line: the name
    it stores, if it stores one. *)
Fixpoint scan_author (keywords : list str) (line_clean line_lower : str) : option str :=
  match keywords with
  | [] => None
  | keyword :: rest =>
      if contains keyword line_lower
         && negb (contains (lit "translator") line_lower)
         && negb (contains (lit "illustrator") line_lower)
      then
        match re_search (re_author keyword) line_clean with
        | Some author_match =>
            let author := strip (group_text author_match) in
            let author := strip_trailing_number author in
            let author := strip_trailing_punct author in
            if (1 <? List.length author) && negb (all_digits author)
            then Some author
            else scan_author rest line_clean line_lower
        | None => scan_author rest line_clean line_lower
        end
      else scan_author rest line_clean line_lower
  end.

Fixpoint scan_translator (keywords : list str) (line_clean line_lower : str) : option str :=
  match keywords with
  | [] => None
  | keyword :: rest =>
      if contains keyword line_lower then
        match re_search (re_person keyword) line_clean with
        | Some translator_match =>
            let translator := strip (group_text translator_match) in
            let translator := strip_trailing_number translator in
            let translator := strip_trailing_punct translator in
            let translator := strip_pages translator in
            if (1 <? List.length translator) && negb (all_digits translator)
            then Some translator
            else scan_translator rest line_clean line_lower
        | None => scan_translator rest line_clean line_lower
        end
      else scan_translator rest line_clean line_lower
  end.

Fixpoint scan_illustrator (keywords : list str) (line_clean line_lower : str) : option str :=
  match keywords with
  | [] => None
  | keyword :: rest =>
      if contains keyword line_lower
         && negb (contains (lit "publisher") line_lower)
         && negb (contains [0x51fa; 0x7248]%N line_lower)
      then
        match re_search (re_person keyword) line_clean with
        | Some illustrator_match =>
            let illustrator := strip (group_text illustrator_match) in
            let illustrator := strip_trailing_number illustrator in
            let illustrator := strip_trailing_punct illustrator in
            if (1 <? List.length illustrator) && negb (all_digits illustrator)
               && negb (contains (lit "publish") (lower illustrator))
            then Some illustrator
            else scan_illustrator rest line_clean line_lower
        | None => scan_illustrator rest line_clean line_lower
        end
      else scan_illustrator rest line_clean line_lower
  end.

(** One iteration of [for line in all_formatted_text] of the person
    fields. *)
Definition person_body (rules : classification_rules) (st : person_state)
           (line : str) : person_state :=
  let line_clean := strip line in
  if is_empty line_clean || existsb (str_eqb line_clean) (used_lines st) then st else
  let line_lower := lower line_clean in
  let st :=
    if is_empty (p_author st) then
      match scan_author (author_keywords rules) line_clean line_lower with
      | Some author =>
          PersonState author (p_translator st) (p_illustrator st)
                      (line_clean :: used_lines st)
      | None => st
      end
    else st in
  let st :=
    if is_empty (p_translator st) then
      match scan_translator (translator_keywords rules) line_clean line_lower with
      | Some translator =>
          PersonState (p_author st) translator (p_illustrator st)
                      (line_clean :: used_lines st)
      | None => st
      end
    else st in
  if is_empty (p_illustrator st) then
    match scan_illustrator (illustrator_keywords rules) line_clean line_lower with
    | Some illustrator =>
        PersonState (p_author st) (p_translator st) illustrator
                    (line_clean :: used_lines st)
    | None => st
    end
  else st.

Definition scan_persons (rules : classification_rules) (all_formatted_text : list str)
  : person_state :=
  fold_left (person_body rules) all_formatted_text (PersonState [] [] [] []).

(** The body of the loop over [sorted_blocks[:5]]: the candidate the block
    contributes to [title_candidates], if any. *)
Definition title_candidate (block : text_block)
  : result (option (str * Q * text_block)) :=
  block_text <- subscript "text" (b_text block) ;;
  let text := strip block_text in
  if (10 <? List.length text) && (List.length text <? 200) then
    avg_font_size <- subscript "avg_font_size" (b_avg_font_size block) ;;
    let is_large_font := Qgeb avg_font_size 14 in
    styles <- subscript "styles" (b_styles block) ;;
    let has_bold := existsb (fun style => get (s_is_bold style) false) styles in
    let is_title_like :=
      is_match (re_match (Seq [Bol; Cls is_upper_AZ;
                               Plus (Cls (fun c => is_alpha c || isspace c || (c =? 0x3A)%N));
                               Eol]) text)
      || (is_match (re_search (Cls is_alpha) text) && (2 <=? List.length (split text)))
      || (is_match (re_search (Cls is_cjk) text) && is_match (re_search (Cls is_alpha) text)) in
    let is_not_title :=
      contains (lit "publisher") (lower text) || contains (lit "isbn") (lower text)
      || contains (lit "pages") (lower text) || contains (lit "price") (lower text)
      || startswith (lower text) (lit "by ")
      || is_match (re_search (Rep 4 (Cls isdecimal)) text)
      || (List.length (split text) <? 2) in
    if is_title_like && negb is_not_title && (is_large_font || has_bold) then
      let score := avg_font_size in
      let score := if has_bold then (score + 2)%Q else score in
      Ok (Some (text, score, block))
    else Ok None
  else Ok None.

Fixpoint collect_title_candidates (blocks : list text_block)
  : result (list (str * Q * text_block)) :=
  match blocks with
  | [] => Ok []
  | block :: rest =>
      candidate <- title_candidate block ;;
      candidates <- collect_title_candidates rest ;;
      Ok (match candidate with
          | Some c => c :: candidates
          | None => candidates
          end)
  end.

(** The value of [classified_data["Title"]] after the selection. *)
Definition choose_title (title_candidates : list (str * Q * text_block)) : str :=
  match sorted_desc (fun x => snd (fst x)) title_candidates with
  | [] => []
  | (_, _, block) :: _ =>
      let formatted_title := apply_html_formatting block in
      if negb (startswith formatted_title b_open)
      then b_open ++ formatted_title ++ b_close
      else formatted_title
  end.

Definition strip_bold (s : str) : str := replace (replace s b_open []) b_close [].

(** The loop looking for 中文書名; [title] is [classified_data["Title"]]. *)
Fixpoint find_chinese_title (title : str) (blocks : list text_block) : result str :=
  match blocks with
  | [] => Ok []
  | block :: rest =>
      block_text <- subscript "text" (b_text block) ;;
      let text := strip block_text in
      let chinese_chars := List.length (re_findall (Cls is_cjk) text) in
      let total_chars := List.length (re_sub (Cls isspace) [] text) in
      if (3 <=? chinese_chars)
         && Qgtb (inject_Z (Z.of_nat chinese_chars)
                  / inject_Z (Z.of_nat (Nat.max total_chars 1))) (6 # 10)
         && (5 <? List.length text) && (List.length text <? 100)
         && negb (str_eqb text (strip_bold title))
      then
        if negb (existsb (fun keyword => contains keyword text) chinese_publication_keywords)
        then Ok (clean_text_content (apply_html_formatting block))
        else find_chinese_title title rest
      else find_chinese_title title rest
  end.

(** [detail_content] once its loop is over. *)
Definition collect_detail (title chinese_title : str) (persons : person_state)
           (all_formatted_text : list str) : list str :=
  flat_map (fun line =>
    let line_clean := strip line in
    if is_empty line_clean || existsb (str_eqb line_clean) (used_lines persons) then [] else
    let line_lower := lower line_clean in
    let is_exclude :=
      existsb (fun keyword => contains keyword line_lower) detail_exclude_keywords in
    let is_already_used :=
      str_eqb line_clean (strip_bold title)
      || str_eqb line_clean chinese_title
      || (negb (is_empty (p_author persons)) && contains (p_author persons) line_clean)
      || (negb (is_empty (p_translator persons)) && contains (p_translator persons) line_clean)
      || (negb (is_empty (p_illustrator persons)) && contains (p_illustrator persons) line_clean) in
    let is_meaningful :=
      (10 <? List.length line_clean)
      && negb (all_digits line_clean)
      && negb (is_match (re_search (Seq [Bol; AtLeast 2 (Cls is_upper_AZ); Eol]) line_clean)) in
    if negb is_exclude && negb is_already_used && is_meaningful then [line_clean] else [])
  all_formatted_text.

(** The value stored under ["Detail"] for a given [detail_content]. *)
Definition detail_of (detail_content : list str) : str :=
  match detail_content with
  | [] => []
  | _ :: _ =>
      let detail_text := join (lit " ") detail_content in
      if 500 <? List.length detail_text
      then firstn 500 detail_text ++ lit "..."
      else detail_text
  end.

(** [info_content] once its loop is over. *)
Definition collect_info (persons : person_state) (all_formatted_text : list str)
  : list str :=
  flat_map (fun line =>
    let line_clean := strip line in
    if is_empty line_clean || existsb (str_eqb line_clean) (used_lines persons) then [] else
    let line_lower := lower line_clean in
    if existsb (fun keyword => contains keyword line_lower) publisher_info_keywords
    then [line_clean] else [])
  all_formatted_text.

Definition info_of (info_content : list str) : str :=
  match info_content with
  | [] => []
  | _ :: _ => join (lit " ") info_content
  end.

Definition category_of (all_formatted_text : list str) : str :=
  let full_text := join (lit " ") all_formatted_text in
  let full_text_lower := lower full_text in
  if contains (lit "comic") full_text_lower || contains (lit "manga") full_text_lower
     || contains [0x6f2b; 0x756b]%N full_text
  then [0x6f2b; 0x756b; 0x985e]%N
  else if contains (lit "novel") full_text_lower || contains [0x5c0f; 0x8aaa]%N full_text
  then [0x5c0f; 0x8aaa; 0x985e]%N
  else if contains (lit "textbook") full_text_lower
          || contains [0x6559; 0x79d1; 0x66f8]%N full_text
  then [0x6559; 0x80b2; 0x985e]%N
  else [].

(** [smart_classify_content], for an extractor whose
    [self.classification_rules] is [rules]. *)
Definition smart_classify_content (rules : classification_rules)
           (text_blocks : list text_block) : result classified_data :=
  merged_blocks <- clean_and_merge_paragraphs text_blocks ;;
  let sorted_blocks :=
    sorted_desc (fun x => get (b_avg_font_size x) 12%Q) merged_blocks in
  let all_formatted_text :=
    map (fun block => clean_text_content (apply_html_formatting block)) merged_blocks in
  title_candidates <- collect_title_candidates (firstn 5 sorted_blocks) ;;
  let title := choose_title title_candidates in
  chinese_title <- find_chinese_title title merged_blocks ;;
  let persons := scan_persons rules all_formatted_text in
  let detail_content := collect_detail title chinese_title persons all_formatted_text in
  let info_content := collect_info persons all_formatted_text in
  Ok {| Title := title;
        ChineseTitle := chinese_title;
        Category := category_of all_formatted_text;
        Author := p_author persons;
        Translator := p_translator persons;
        Illustrator := p_illustrator persons;
        Detail := detail_of detail_content;
        RightsSold := [];
        MoreInfo := info_of info_content;
        Tags := [] |}.

End WithUnicode.
End AdvancedPDFExtractor.

(* ------------------------------------------------------------------ *)
(** ** Vocabulary of the specification *)

Module Spec.
Import Py TextProcessor AdvancedPDFExtractor.

(** The text starts, resp. ends, with a character of the class [p]. *)
Definition starts_in (p : char -> bool) (s : str) : bool :=
  match s with
  | c :: _ => p c
  | [] => false
  end.

Definition ends_in (p : char -> bool) (s : str) : bool :=
  match last_char s with
  | Some c => p c
  | None => false
  end.

(** Some character of the text is in the class [p]. *)
Definition has (p : char -> bool) (s : str) : bool := existsb p s.

(** The text is empty or made of whitespace only. *)
Definition blank (s : str) : bool := forallb isspace s.

Definition comma : char -> bool := one_of [0x2C; 0xff0c]%N.
Definition comma_hyphen : char -> bool := one_of [0x2C; 0xff0c; 0x2D]%N.
Definition upper_or_cjk (c : char) : bool := is_upper_AZ c || is_cjk c.

(** A fragment as the data model has it: the keys [text], [styles] and
    [avg_font_size] are present. *)
Definition well_formed (b : text_block) : Prop :=
  (exists t, b_text b = Some t) /\
  (exists l, b_styles b = Some l) /\
  (exists q, b_avg_font_size b = Some q).

(** The block has a text that is not made of whitespace only. *)
Definition nonblank_text (b : text_block) : Prop :=
  exists t, b_text b = Some t /\ blank t = false.

(** The fragments that the reconstruction does not skip. *)
Definition kept (b : text_block) : bool := negb (blank (get (b_text b) [])).

(** The text of a fragment is trimmed and not empty. *)
Definition trimmed (t : str) : Prop := strip t = t /\ t <> [].

Definition carries_size (b : text_block) : Prop :=
  exists q, b_avg_font_size b = Some q.

(** Minimum and maximum of the sizes of a list of fragments. *)
Definition sizes (parts : list text_block) : list Q :=
  map (fun b => get (b_avg_font_size b) 12%Q) parts.

Definition Qminimum (l : list Q) : Q :=
  match l with
  | [] => 0%Q
  | q :: l' => fold_left Qmin l' q
  end.

Definition Qmaximum (l : list Q) : Q :=
  match l with
  | [] => 0%Q
  | q :: l' => fold_left Qmax l' q
  end.

(** What the traced loop maintains for a paragraph [p] built from the
    fragments [parts]. *)
Definition sound_paragraph (entry : text_block * list text_block) : Prop :=
  let (p, parts) := entry in
  nonblank_text p /\
  parts <> [] /\
  (Forall well_formed parts -> well_formed p) /\
  (Forall carries_size parts ->
   exists q, b_avg_font_size p = Some q /\
             (Qminimum (sizes parts) <= q /\ q <= Qmaximum (sizes parts))%Q).

(** Forgetting the recorded fragments. *)
Definition erase (st : traced_state) : loop_state :=
  LoopState (map fst (t_merged st)) (option_map fst (t_current st)).

Definition current_parts (st : traced_state) : list text_block :=
  match t_current st with
  | Some (_, parts) => parts
  | None => []
  end.

(** The invariant of the traced loop once the fragments [seen] have been
    consumed. *)
Definition traced_inv (st : traced_state) (seen : list text_block) : Prop :=
  Forall sound_paragraph (t_merged st) /\
  (forall entry, t_current st = Some entry -> sound_paragraph entry) /\
  List.concat (map snd (t_merged st)) ++ current_parts st = filter kept seen.

(** The record whose fields are all empty. *)
Definition empty_record : classified_data :=
  Classified [] [] [] [] [] [] [] [] [] [].

(** The formatted lines of the paragraphs, as the classification scans
    them. *)
Definition formatted_lines {U : UnicodeDB} (merged_blocks : list text_block) : list str :=
  map (fun block => clean_text_content (apply_html_formatting block)) merged_blocks.



End Spec.

(* ------------------------------------------------------------------ *)
(** ** Inputs of the scenarios *)

Module Scenario.
Import Py TextProcessor AdvancedPDFExtractor.

(** A fragment with one span covering its text. *)
Definition fragment (t : string) (size : Q) (italic bold : bool) : text_block :=
  Block (Some 1%N) (Some (lit t))
        (Some [Style (Some (lit t)) (Some italic) (Some bold) None (Some size)])
        (Some size).

(** A fragment without style spans. *)
Definition plain (t : string) (size : Q) : text_block :=
  Block (Some 1%N) (Some (lit t)) (Some []) (Some size).

Definition A1 : text_block := fragment "Chapter One: Origins" 18 false true.
Definition A2 : text_block := fragment "is a story of courage." 12 false false.

Definition B1 : text_block :=
  fragment "In 1977, Ah Wen had been on the other side of history: recruited as a" 12 true false.
Definition B2 : text_block :=
  fragment "spy. His assignment was to infiltrate the campaign headquarters" 12 true false.
Definition B3 : text_block :=
  fragment "of an independent candidate." 12 true false.

Definition B_joined : str :=
  lit "In 1977, Ah Wen had been on the other side of history: recruited as a spy. His assignment was to infiltrate the campaign headquarters of an independent candidate.".

Definition B_wrapped_per_span : str :=
  lit "<i>In 1977, Ah Wen had been on the other side of history: recruited as a</i> <i>spy. His assignment was to infiltrate the campaign headquarters</i> <i>of an independent candidate.</i>".

Definition C_text : str :=
  lit "Translator: Chen-Yu Chang, Noax Tao and Lee-Hang Chen 23".

Definition C_line : text_block :=
  plain "Translator: Chen-Yu Chang, Noax Tao and Lee-Hang Chen 23" 12.

Definition C_expected : str := lit "Chen-Yu Chang, Noax Tao and Lee-Hang Chen".

Definition credit_line : text_block := plain "Translated by Bob Lee" 12.

(** A hyphenated word split over two lines. *)
Definition H1 : text_block := plain "an extra-" 12.
Definition H2 : text_block := plain "ordinary day" 12.



End Scenario.
(* ------------------------------------------------------------------ *)
(** ** advanced_pdf_extractor.py, the functions around the classification *)

Module Extractor.
Import Py TextProcessor AdvancedPDFExtractor.

(** [_intelligent_text_join], the join used by [smart_text_merge]. *)
Definition _intelligent_text_join (text1 text2 : str) : str :=
  let text1 := strip text1 in
  let text2 := strip text2 in
  if endswith text1 (lit "-") then removelast text1 ++ text2 else
  if endswith text1 (lit " ") then text1 ++ text2 else
  if is_match (re_match (Seq [Bol; Cls is_lower_az]) text2) then text1 ++ lit " " ++ text2 else
  text1 ++ lit " " ++ text2.

(** What PyMuPDF hands to [extract_text_with_styles]: a span of
    [line["spans"]], with its keys [text], [font], [flags] and [size]. *)
Record span := Span {
  sp_text : str;
  sp_font : str;
  sp_flags : N;
  sp_size : Q
}.

(** A block of [page.get_text("dict")["blocks"]]: its [lines], when it has
    the key, each line being its list of spans. *)
Record layout_block := LayoutBlock {
  lb_lines : option (list (list span))
}.

(** A page is the list of its blocks, a document the list of its pages. *)
Definition page := list layout_block.
Definition document := list page.

(** [bool(font_flags & mask)]. *)
Definition flag_set (flags mask : N) : bool := negb (N.land flags mask =? 0)%N.

(** [sum(s["font_size"] for s in line_styles) / len(line_styles) if
    line_styles else 0]. *)
Definition mean_font_size (line_styles : list style) : Q :=
  match line_styles with
  | [] => 0%Q
  | _ :: _ =>
      (fold_left (fun acc s => (acc + get (s_font_size s) 0)%Q) line_styles 0%Q
       / inject_Z (Z.of_nat (List.length line_styles)))%Q
  end.

Section WithUnicode.
Context {U : UnicodeDB}.

(** The body of [for span in line["spans"]], on the pair of [line_text]
    and [line_styles]. *)
Definition span_body (acc : str * list style) (sp : span) : str * list style :=
  let (line_text, line_styles) := acc in
  let text := strip (sp_text sp) in
  if is_empty text then acc else
  let font_name := sp_font sp in
  let font_flags := sp_flags sp in
  let font_size := sp_size sp in
  let is_italic := flag_set font_flags 2 in
  let is_bold := flag_set font_flags 16 in
  let is_italic :=
    if contains (lit "italic") (lower font_name)
       || contains (lit "oblique") (lower font_name)
    then true else is_italic in
  (line_text ++ text ++ lit " ",
   line_styles ++ [Style (Some text) (Some is_italic) (Some is_bold)
                         (Some font_name) (Some font_size)]).

(** The fragment appended for one line, if one is. *)
Definition line_fragment (page_num : nat) (spans : list span) : list text_block :=
  let (line_text, line_styles) := fold_left span_body spans ([], []) in
  if is_empty (strip line_text) then [] else
  [Block (Some (N.of_nat page_num + 1)%N)
         (Some (strip line_text))
         (Some line_styles)
         (Some (mean_font_size line_styles))].

Definition block_fragments (page_num : nat) (block : layout_block) : list text_block :=
  match lb_lines block with
  | Some lines => flat_map (line_fragment page_num) lines
  | None => []
  end.

Fixpoint pages_fragments (page_num : nat) (pages : list page) : list text_block :=
  match pages with
  | [] => []
  | blocks :: rest =>
      flat_map (block_fragments page_num) blocks ++ pages_fragments (S page_num) rest
  end.

(** [extract_text_with_styles]; [doc] is the document [fitz.open] yields,
    [None] when it raises, which the function answers with the empty
    list. *)
Definition extract_text_with_styles (doc : option document) : list text_block :=
  match doc with
  | Some pages => pages_fragments 0 pages
  | None => []
  end.


End WithUnicode.
End Extractor.

(* ------------------------------------------------------------------ *)
(** ** Further vocabulary *)

Module Notions.
Import Py TextProcessor AdvancedPDFExtractor.

(** The stripped text of a fragment, as the loop of
    [clean_and_merge_paragraphs] reads it. *)
Definition fragment_text (b : text_block) : str := strip (get (b_text b) []).

(** The text obtained from [t0] by joining to it, from left to right, the
    texts of the fragments [rest]. *)
Definition joined_text (t0 : str) (rest : list text_block) : str :=
  fold_left (fun acc b => _smart_join_texts acc (fragment_text b)) rest t0.


(** The characters of a text that are not whitespace. *)
Definition non_space (s : str) : str := filter (fun c => negb (isspace c)) s.

(** A person field is empty, or a text of at least two characters that is
    not made of decimal digits only. *)
Definition person_ok {U : UnicodeDB} (s : str) : Prop :=
  s = [] \/ (1 < List.length s /\ all_digits s = false).



(** The text is not empty, and neither starts nor ends with whitespace. *)
Definition tight (s : str) : Prop :=
  (exists c r, s = c :: r /\ isspace c = false) /\
  (exists c, last_char s = Some c /\ isspace c = false).

(** A span as [extract_text_with_styles] builds it: its five keys are
    present and its text is trimmed and not empty. *)
Definition complete_style (st : style) : Prop :=
  (exists t, s_text st = Some t /\ strip t = t /\ t <> []) /\
  (exists i, s_is_italic st = Some i) /\
  (exists b, s_is_bold st = Some b) /\
  (exists f, s_font_name st = Some f) /\
  (exists q, s_font_size st = Some q).

(** A fragment as [extract_text_with_styles] builds it, for a document of
    [pages] pages. *)
Definition extracted_fragment (pages : nat) (f : text_block) : Prop :=
  exists styles,
    b_styles f = Some styles /\
    styles <> [] /\
    Forall complete_style styles /\
    b_text f = Some (join (lit " ") (map (fun st => get (s_text st) []) styles)) /\
    b_avg_font_size f = Some (Extractor.mean_font_size styles) /\
    exists n, b_page f = Some (N.of_nat n) /\ 1 <= n <= pages.

End Notions.

(* ------------------------------------------------------------------ *)
(** ** What a pattern matches *)

Module Language.
Import Py.

(** The state reached from [st] by passing over [n] characters. *)
Definition advance (n : nat) (st : mstate) : mstate :=
  MState (m_pos st + n) (skipn n (m_rest st)) (m_group st).

(** The loops of [rmatch] for [Star] and [LazyStar], with their fuel. *)
Definition star_loop {A} (r1 : regex) (k : mstate -> option A)
  : nat -> mstate -> option A :=
  fix loop (fuel : nat) (st : mstate) {struct fuel} : option A :=
    match fuel with
    | O => k st
    | S fuel' =>
        match rmatch r1 st (fun st' =>
                if m_pos st <? m_pos st' then loop fuel' st' else None) with
        | Some a => Some a
        | None => k st
        end
    end.

Definition lazy_loop {A} (r1 : regex) (k : mstate -> option A)
  : nat -> mstate -> option A :=
  fix loop (fuel : nat) (st : mstate) {struct fuel} : option A :=
    match fuel with
    | O => k st
    | S fuel' =>
        match k st with
        | Some a => Some a
        | None =>
            rmatch r1 st (fun st' =>
              if m_pos st <? m_pos st' then loop fuel' st' else None)
        end
    end.

(** [Matches r st st']: the pattern [r] can take a match attempt from the
    state [st] to the state [st']. *)
Inductive Matches : regex -> mstate -> mstate -> Prop :=
| M_eps st : Matches Eps st st
| M_cls p st c s' :
    m_rest st = c :: s' -> p c = true ->
    Matches (Cls p) st (MState (S (m_pos st)) s' (m_group st))
| M_cat r1 r2 st st1 st2 :
    Matches r1 st st1 -> Matches r2 st1 st2 -> Matches (Cat r1 r2) st st2
| M_alt_l r1 r2 st st' : Matches r1 st st' -> Matches (Alt r1 r2) st st'
| M_alt_r r1 r2 st st' : Matches r2 st st' -> Matches (Alt r1 r2) st st'
| M_star_stop r st : Matches (Star r) st st
| M_star_more r st st1 st2 :
    Matches r st st1 -> Matches (Star r) st1 st2 -> Matches (Star r) st st2
| M_lazy_stop r st : Matches (LazyStar r) st st
| M_lazy_more r st st1 st2 :
    Matches r st st1 -> Matches (LazyStar r) st1 st2 -> Matches (LazyStar r) st st2
| M_grp r st st1 :
    Matches r st st1 ->
    Matches (Grp r) st
            (MState (m_pos st1) (m_rest st1)
                    (Some (firstn (m_pos st1 - m_pos st) (m_rest st))))
| M_bol st : m_pos st = 0 -> Matches Bol st st
| M_eol st : m_rest st = [] \/ m_rest st = [0x0A%N] -> Matches Eol st st.


End Language.

(* ------------------------------------------------------------------ *)
(** * More inputs *)

Module Examples.
Import Py TextProcessor AdvancedPDFExtractor Scenario.

(** Two headings in a row. *)
Definition heading1 : text_block := fragment "Chapter One: Origins" 18 false true.
Definition heading2 : text_block := plain "Part Two" 12.

(** Two lines that each end a sentence. *)
Definition sentence1 : text_block := plain "It rained all day." 12.
Definition sentence2 : text_block := plain "we stayed in." 12.

(** A line of a catalogue of comics: 漫畫 series. *)
Definition comics_line : text_block :=
  Block (Some 1%N) (Some ([0x6f2b; 0x756b]%N ++ lit " series")) (Some [])
        (Some 12%Q).

(** A fragment of whitespace only. *)
Definition blank_line : text_block := plain "   " 12.

End Examples.

(* ------------------------------------------------------------------ *)
(** ** Properties *)

Import Py TextProcessor AdvancedPDFExtractor Spec.

(** *** Texts *)

Section Texts.

Lemma last_char_rev (s : str) : last_char s = hd_error (rev s).
Proof.
  induction s as [|c s IH]; [reflexivity|].
  destruct s as [|d s']; [reflexivity|].
  change (last_char (c :: d :: s')) with (last_char (d :: s')).
  rewrite IH. simpl.
  destruct (rev s' ++ [d]) eqn:E; [|reflexivity].
  destruct (rev s'); discriminate.
Qed.

Lemma endswith_char (s : str) (c : char) :
  endswith s [c] = true <-> last_char s = Some c.
Proof.
  unfold endswith. rewrite last_char_rev. simpl.
  destruct (rev s) as [|x r]; simpl.
  - split; discriminate.
  - rewrite andb_true_r, N.eqb_eq. split; congruence.
Qed.

Lemma blank_app (a b : str) : blank (a ++ b) = blank a && blank b.
Proof. apply forallb_app. Qed.

Lemma blank_rev (s : str) : blank (rev s) = blank s.
Proof.
  induction s as [|c s IH]; [reflexivity|].
  simpl. rewrite blank_app, IH. simpl. rewrite andb_true_r. apply andb_comm.
Qed.

Lemma blank_lstrip (s : str) : blank (lstrip s) = blank s.
Proof.
  induction s as [|c s IH]; [reflexivity|].
  simpl. destruct (isspace c) eqn:E; [exact IH|].
  simpl. rewrite E. reflexivity.
Qed.

Lemma lstrip_nil (s : str) : lstrip s = [] <-> blank s = true.
Proof.
  induction s as [|c s IH]; simpl.
  - tauto.
  - destruct (isspace c); simpl; [exact IH|]. split; discriminate.
Qed.

Lemma lstrip_head (s : str) (c : char) (r : str) :
  lstrip s = c :: r -> isspace c = false.
Proof.
  induction s as [|d s IH]; simpl; [discriminate|].
  destruct (isspace d) eqn:E; [exact IH|].
  intros H. injection H as -> _. exact E.
Qed.

Lemma blank_strip (s : str) : blank (strip s) = blank s.
Proof.
  unfold strip, rstrip.
  now rewrite blank_rev, blank_lstrip, blank_rev, blank_lstrip.
Qed.

Lemma strip_nil (s : str) : strip s = [] <-> blank s = true.
Proof.
  unfold strip, rstrip. split.
  - intros H. apply (f_equal (@rev char)) in H. rewrite rev_involutive in H.
    simpl in H. apply lstrip_nil in H.
    now rewrite blank_rev, blank_lstrip in H.
  - intros H. rewrite <- blank_lstrip, <- blank_rev in H.
    apply lstrip_nil in H. now rewrite H.
Qed.

Lemma strip_last_not_space (s : str) (c : char) :
  last_char (strip s) = Some c -> isspace c = false.
Proof.
  unfold strip, rstrip. rewrite last_char_rev, rev_involutive.
  destruct (lstrip (rev (lstrip s))) as [|x r] eqn:E; simpl; [discriminate|].
  intros H. injection H as <-. exact (lstrip_head _ E).
Qed.

End Texts.

(** *** The patterns of the merge decision *)

Section Patterns.
Variable p : char -> bool.

Lemma match_at_class_eol (pos : nat) (s : str) :
  is_match (match_at (Seq [Cls p; Eol]) pos s) =
  match s with
  | [c] => p c
  | [c; d] => p c && (d =? 0x0A)%N
  | _ => false
  end.
Proof.
  destruct s as [|c [|d [|e s]]]; simpl; try reflexivity;
    unfold match_at; simpl; destruct (p c); simpl; try reflexivity.
  destruct (d =? 10)%N; reflexivity.
Qed.

Lemma is_match_search_from (r : regex) (pos : nat) (s : str) :
  is_match (search_from r pos s) =
  is_match (match_at r pos s) ||
  match s with
  | [] => false
  | _ :: s' => is_match (search_from r (S pos) s')
  end.
Proof.
  destruct s; simpl; destruct (match_at r pos _); reflexivity.
Qed.

(** [re.search(r'[...]$', s)] on a text that does not end with a newline
    tests its last character. *)
Lemma search_class_eol (s : str) :
  (forall c, last_char s = Some c -> c <> 0x0A%N) ->
  is_match (re_search (Seq [Cls p; Eol]) s) = ends_in p s.
Proof.
  unfold re_search, ends_in. generalize 0.
  induction s as [|c s IH]; intros pos Hlast.
  - reflexivity.
  - rewrite is_match_search_from, match_at_class_eol.
    destruct s as [|d s'].
    + simpl. now rewrite orb_false_r.
    + rewrite IH by exact Hlast.
      change (last_char (c :: d :: s')) with (last_char (d :: s')).
      destruct s' as [|e s'']; [|reflexivity].
      simpl. assert (Hd : (d =? 10)%N = false)
        by (apply N.eqb_neq, Hlast; reflexivity).
      rewrite Hd, andb_false_r. reflexivity.
Qed.

Lemma search_class_eol_strip (t : str) :
  is_match (re_search (Seq [Cls p; Eol]) (strip t)) = ends_in p (strip t).
Proof.
  apply search_class_eol. intros c Hc ->.
  apply strip_last_not_space in Hc. discriminate.
Qed.

(** [re.match(r'^[...]', s)] tests the first character. *)
Lemma match_bol_class (s : str) :
  is_match (re_match (Seq [Bol; Cls p]) s) = starts_in p s.
Proof.
  destruct s as [|c s]; [reflexivity|].
  unfold re_match, match_at. simpl. destruct (p c); reflexivity.
Qed.

(** [re.search(r'[...]', s)] tests whether some character is in the class. *)
Lemma search_class (s : str) :
  is_match (re_search (Cls p) s) = has p s.
Proof.
  unfold re_search, has. generalize 0.
  induction s as [|c s IH]; intros pos; [reflexivity|].
  rewrite is_match_search_from, IH.
  unfold match_at. simpl. destruct (p c); reflexivity.
Qed.

End Patterns.

Lemma ends_in_ext (p q : char -> bool) (s : str) :
  (forall c, last_char s = Some c -> p c = q c) -> ends_in p s = ends_in q s.
Proof.
  unfold ends_in. destruct (last_char s); [|reflexivity]. intros H. now apply H.
Qed.

Lemma ends_in_comma_hyphen_space (t : str) :
  ends_in comma_hyphen_space (strip t) = ends_in comma_hyphen (strip t).
Proof.
  apply ends_in_ext. intros c Hc. apply strip_last_not_space in Hc.
  unfold comma_hyphen_space, comma_hyphen. now rewrite Hc, orb_false_r.
Qed.

(** The decision of [_should_merge_texts] in terms of the stripped texts. *)
Lemma should_merge_texts_eq (t1 t2 : str) :
  _should_merge_texts t1 t2 =
  let a := strip t1 in
  let b := strip t2 in
  if ends_in sentence_end a then false
  else if starts_in is_upper_AZ b
       then ends_in comma_hyphen a || (List.length a <? 30) || negb (has sentence_end a)
  else if starts_in is_lower_az b then true
  else if ends_in comma_hyphen a then true
  else (List.length a <? 50) && (List.length b <? 50).
Proof.
  unfold _should_merge_texts.
  rewrite !search_class_eol_strip, !match_bol_class, search_class,
    ends_in_comma_hyphen_space.
  cbv zeta.
  repeat match goal with |- context [if ?b then _ else _] => destruct b end;
    reflexivity.
Qed.

(** The decision of the variant [_should_merge_text]. *)
Lemma should_merge_text_eq (t1 t2 : str) :
  _should_merge_text t1 t2 =
  let a := strip t1 in
  let b := strip t2 in
  if ends_in sentence_end a then false
  else if starts_in upper_or_cjk b
       then ends_in comma a || negb (has sentence_end t1)
  else if ends_in comma_hyphen a then true
  else if starts_in is_lower_az b then true
  else (List.length a <? 50) && (List.length b <? 50).
Proof.
  unfold _should_merge_text.
  rewrite !search_class_eol_strip, !match_bol_class, search_class,
    ends_in_comma_hyphen_space.
  cbv zeta. fold upper_or_cjk. fold comma.
  repeat match goal with |- context [if ?b then _ else _] => destruct b end;
    reflexivity.
Qed.

(** *** The reconstruction loop *)

Ltac split3 := split; [|split].
Ltac split4 := split; [|split; [|split]].

Lemma blank_smart_join (a b : str) :
  blank b = false -> blank (_smart_join_texts a b) = false.
Proof.
  intros Hb. unfold _smart_join_texts.
  assert (Hs : blank (strip b) = false) by now rewrite blank_strip.
  repeat match goal with |- context [if ?c then _ else _] => destruct c end;
    rewrite !blank_app, Hs, !andb_false_r; reflexivity.
Qed.

Lemma b_text_merge_into (cur block : text_block) (ct text : str) :
  b_text (merge_into cur ct text block) = Some (_smart_join_texts ct text).
Proof.
  unfold merge_into. destruct cur as [pg tx [sty|] [av|]]; simpl;
    destruct (b_styles block), (b_avg_font_size block); reflexivity.
Qed.

Lemma b_avg_merge_into (cur block : text_block) (ct text : str) :
  b_avg_font_size (merge_into cur ct text block) =
  match b_avg_font_size block, b_avg_font_size cur with
  | Some qb, Some q => Some ((q + qb) / 2)%Q
  | _, _ => b_avg_font_size cur
  end.
Proof.
  unfold merge_into. destruct cur as [pg tx [sty|] [av|]]; simpl;
    destruct (b_styles block), (b_avg_font_size block); reflexivity.
Qed.

Lemma b_styles_merge_into (cur block : text_block) (ct text : str) :
  b_styles (merge_into cur ct text block) =
  match b_styles block, b_styles cur with
  | Some new_styles, Some styles => Some (styles ++ new_styles)
  | _, _ => b_styles cur
  end.
Proof.
  unfold merge_into. destruct cur as [pg tx [sty|] [av|]]; simpl;
    destruct (b_styles block), (b_avg_font_size block); reflexivity.
Qed.

Lemma well_formed_merge_into (cur block : text_block) (ct text : str) :
  well_formed cur -> well_formed (merge_into cur ct text block).
Proof.
  intros (_ & [l Hl] & [q Hq]). unfold well_formed.
  rewrite b_text_merge_into, b_styles_merge_into, b_avg_merge_into, Hl, Hq.
  repeat split.
  - eexists; reflexivity.
  - destruct (b_styles block); eexists; reflexivity.
  - destruct (b_avg_font_size block); eexists; reflexivity.
Qed.

Lemma Qminimum_snoc (l : list Q) (x : Q) :
  l <> [] -> Qminimum (l ++ [x]) = Qmin (Qminimum l) x.
Proof.
  destruct l as [|q l]; [congruence|]. intros _. simpl.
  now rewrite fold_left_app.
Qed.

Lemma Qmaximum_snoc (l : list Q) (x : Q) :
  l <> [] -> Qmaximum (l ++ [x]) = Qmax (Qmaximum l) x.
Proof.
  destruct l as [|q l]; [congruence|]. intros _. simpl.
  now rewrite fold_left_app.
Qed.

(** The pairwise update stays between the bounds extended by the incoming
    size. *)
Lemma pairwise_average_bounds (m q qb M : Q) :
  (m <= q -> q <= M ->
   Qmin m qb <= (q + qb) / 2 /\ (q + qb) / 2 <= Qmax M qb)%Q.
Proof.
  intros Hm HM.
  pose proof (Q.le_min_l m qb) as H1. pose proof (Q.le_min_r m qb) as H2.
  pose proof (Q.le_max_l M qb) as H3. pose proof (Q.le_max_r M qb) as H4.
  unfold Qdiv. change (/ 2)%Q with (1 # 2)%Q.
  revert H1 H2 H3 H4. generalize (Qmin m qb), (Qmax M qb).
  intros lo hi H1 H2 H3 H4. split; lra.
Qed.

Lemma nonblank_truthy (b : text_block) : nonblank_text b -> dict_truthy b = true.
Proof.
  intros (t & Ht & _). unfold dict_truthy. rewrite Ht. simpl.
  now rewrite orb_true_r.
Qed.

Lemma sound_single (b : text_block) : kept b = true -> sound_paragraph (b, [b]).
Proof.
  unfold kept. intros Hk. apply negb_true_iff in Hk.
  split4.
  - destruct (b_text b) as [t|] eqn:E; [|discriminate]. now exists t.
  - discriminate.
  - intros H. now inversion H.
  - intros H. inversion H as [|? ? [q Hq] _]; subst.
    exists q. split; [exact Hq|].
    unfold sizes. simpl. rewrite Hq. simpl. split; apply Qle_refl.
Qed.

Lemma sound_merge (cur block : text_block) (parts : list text_block)
      (ct text : str) :
  sound_paragraph (cur, parts) -> blank text = false ->
  sound_paragraph (merge_into cur ct text block, parts ++ [block]).
Proof.
  intros (Hnb & Hne & Hwf & Havg) Hb. split4.
  - exists (_smart_join_texts ct text).
    split; [apply b_text_merge_into|now apply blank_smart_join].
  - now destruct parts.
  - intros H. apply Forall_app in H. apply well_formed_merge_into, Hwf, H.
  - intros H. apply Forall_app in H. destruct H as [Hp Hblock].
    destruct (Havg Hp) as (q & Hq & Hlo & Hhi).
    inversion Hblock as [|? ? [qb Hqb] _]; subst.
    rewrite b_avg_merge_into, Hqb, Hq.
    eexists; split; [reflexivity|].
    unfold sizes. rewrite map_app. simpl. rewrite Hqb. simpl.
    assert (Hs : map (fun b => get (b_avg_font_size b) 12%Q) parts <> [])
      by now destruct parts.
    rewrite (Qminimum_snoc _ Hs), (Qmaximum_snoc _ Hs).
    now apply pairwise_average_bounds.
Qed.

Section Reconstruction.
Context {U : UnicodeDB}.

Lemma filter_kept_snoc (seen : list text_block) (b : text_block) :
  filter kept (seen ++ [b]) = filter kept seen ++ (if kept b then [b] else []).
Proof.
  rewrite filter_app. simpl. now destruct (kept b).
Qed.

(** One iteration keeps the invariant, and raises nothing. *)
Lemma traced_body_sound (st : traced_state) (seen : list text_block)
      (block : text_block) :
  traced_inv st seen ->
  exists st', traced_body st block = Ok st' /\ traced_inv st' (seen ++ [block]).
Proof.
  intros (Hm & Hc & Hparts). unfold traced_body.
  destruct (strip (get (b_text block) [])) as [|c text] eqn:Et.
  - (* skipped *)
    exists st. split; [reflexivity|].
    assert (Hk : kept block = false).
    { unfold kept. apply negb_false_iff, strip_nil. exact Et. }
    split3; try assumption.
    now rewrite filter_kept_snoc, Hk, app_nil_r.
  - assert (Hk : kept block = true).
    { unfold kept. apply negb_true_iff.
      destruct (blank (get (b_text block) [])) eqn:Hb; [|reflexivity].
      apply strip_nil in Hb. congruence. }
    assert (Hbt : blank (c :: text) = false).
    { rewrite <- Et, blank_strip. unfold kept in Hk. now apply negb_true_iff. }
    pose proof (@sound_single block Hk) as Hsingle.
    destruct st as [merged [[cur parts]|]]; unfold current_parts in Hparts;
      simpl in *.
    + pose proof (Hc _ eq_refl) as Hcur.
      pose proof Hcur as (Hnb & _).
      rewrite (@nonblank_truthy _ Hnb).
      assert (Hpush : traced_inv (TracedState (merged ++ [(cur, parts)])
                                   (Some (block, [block])))
                        (seen ++ [block])).
      { split3; simpl.
        - apply Forall_app. split; [exact Hm|]. now constructor.
        - intros entry H. injection H as <-. exact Hsingle.
        - unfold current_parts. simpl.
          rewrite map_app, concat_app. simpl.
          rewrite filter_kept_snoc, Hk, <- Hparts.
          now rewrite app_nil_r. }
      destruct (_is_new_paragraph (c :: text) block).
      * eexists; split; [reflexivity|exact Hpush].
      * destruct Hnb as (ct & Hct & _). rewrite Hct. simpl.
        destruct (_should_merge_texts ct (c :: text)).
        -- eexists; split; [reflexivity|].
           split3; simpl.
           ++ exact Hm.
           ++ intros entry H. injection H as <-. now apply sound_merge.
           ++ unfold current_parts. simpl.
              now rewrite filter_kept_snoc, Hk, <- Hparts, app_assoc.
        -- eexists; split; [reflexivity|exact Hpush].
    + eexists; split; [reflexivity|].
      split3; simpl.
      * exact Hm.
      * intros entry H. injection H as <-. exact Hsingle.
      * unfold current_parts. simpl.
        rewrite filter_kept_snoc, Hk, <- Hparts. now rewrite app_nil_r.
Qed.

Lemma run_traced_sound (text_blocks : list text_block) :
  forall (st : traced_state) (seen : list text_block),
    traced_inv st seen ->
    exists st', run_traced st text_blocks = Ok st' /\
                traced_inv st' (seen ++ text_blocks).
Proof.
  induction text_blocks as [|block rest IH]; intros st seen Hinv.
  - exists st. split; [reflexivity|]. now rewrite app_nil_r.
  - destruct (@traced_body_sound st seen block Hinv) as (st1 & H1 & Hinv1).
    destruct (IH _ _ Hinv1) as (st2 & H2 & Hinv2).
    exists st2. simpl. rewrite H1. simpl. rewrite H2.
    split; [reflexivity|]. now rewrite <- app_assoc in Hinv2.
Qed.

(** The traced reconstruction returns, its paragraphs are sound, and the
    recorded fragments are the kept fragments of the input, in order. *)
Lemma clean_and_merge_traced_sound (text_blocks : list text_block) :
  exists traced,
    clean_and_merge_traced text_blocks = Ok traced /\
    Forall sound_paragraph traced /\
    List.concat (map snd traced) = filter kept text_blocks.
Proof.
  destruct text_blocks as [|b rest].
  - exists []. split3; [reflexivity|constructor|reflexivity].
  - assert (Hinit : traced_inv (TracedState [] None) []).
    { split3; [constructor|discriminate|reflexivity]. }
    destruct (@run_traced_sound (b :: rest) _ _ Hinit) as (st & Hrun & Hm & Hc & Hparts).
    unfold clean_and_merge_traced. rewrite Hrun. simpl.
    exists (finish_traced st). split; [reflexivity|].
    unfold finish_traced. unfold current_parts in Hparts.
    destruct (t_current st) as [[cur parts]|].
    + pose proof (Hc _ eq_refl) as Hcur. pose proof Hcur as (Hnb & _).
      rewrite (@nonblank_truthy _ Hnb). split.
      * apply Forall_app. split; [exact Hm|]. now constructor.
      * rewrite map_app, concat_app. simpl. now rewrite app_nil_r.
    + split; [exact Hm|]. now rewrite app_nil_r in Hparts.
Qed.

Lemma loop_body_erase (st : traced_state) (block : text_block) :
  loop_body (erase st) block =
  match traced_body st block with
  | Ok st' => Ok (erase st')
  | Raise e => Raise e
  end.
Proof.
  unfold loop_body, traced_body, erase.
  destruct (strip (get (b_text block) [])); [reflexivity|].
  destruct st as [merged [[cur parts]|]]; simpl; [|reflexivity].
  destruct (_is_new_paragraph _ block).
  - destruct (dict_truthy cur); simpl; now rewrite ?map_app.
  - destruct (b_text cur); simpl; [|reflexivity].
    destruct (_should_merge_texts _ _); simpl; now rewrite ?map_app.
Qed.

Lemma run_loop_erase (text_blocks : list text_block) :
  forall st : traced_state,
    run_loop (erase st) text_blocks =
    match run_traced st text_blocks with
    | Ok st' => Ok (erase st')
    | Raise e => Raise e
    end.
Proof.
  induction text_blocks as [|block rest IH]; intros st; [reflexivity|].
  simpl. rewrite loop_body_erase.
  destruct (traced_body st block); simpl; [apply IH|reflexivity].
Qed.

Lemma finish_erase (st : traced_state) :
  finish (erase st) = map fst (finish_traced st).
Proof.
  unfold finish, finish_traced, erase. simpl.
  destruct (t_current st) as [[cur parts]|]; simpl; [|reflexivity].
  destruct (dict_truthy cur); [|reflexivity].
  now rewrite map_app.
Qed.

(** [clean_and_merge_paragraphs] is the traced loop without its record. *)
Lemma clean_and_merge_traced_erase (text_blocks : list text_block) :
  clean_and_merge_paragraphs text_blocks =
  match clean_and_merge_traced text_blocks with
  | Ok traced => Ok (map fst traced)
  | Raise e => Raise e
  end.
Proof.
  destruct text_blocks as [|b rest]; [reflexivity|].
  unfold clean_and_merge_paragraphs, clean_and_merge_traced.
  change (LoopState [] None) with (erase (TracedState [] None)).
  rewrite run_loop_erase.
  destruct (run_traced _ _); simpl; [|reflexivity].
  now rewrite finish_erase.
Qed.

Lemma loop_body_skip (st : loop_state) (block : text_block) :
  kept block = false -> loop_body st block = Ok st.
Proof.
  unfold kept, loop_body. intros H.
  apply negb_false_iff, strip_nil in H. now rewrite H.
Qed.

Lemma run_loop_filter (text_blocks : list text_block) :
  forall st : loop_state,
    run_loop st (filter kept text_blocks) = run_loop st text_blocks.
Proof.
  induction text_blocks as [|block rest IH]; intros st; [reflexivity|].
  simpl. destruct (kept block) eqn:Hk.
  - simpl. destruct (loop_body st block); simpl; [apply IH|reflexivity].
  - rewrite (@loop_body_skip st block Hk). simpl. apply IH.
Qed.

Lemma clean_and_merge_filter (text_blocks : list text_block) :
  clean_and_merge_paragraphs (filter kept text_blocks) =
  clean_and_merge_paragraphs text_blocks.
Proof.
  unfold clean_and_merge_paragraphs.
  destruct text_blocks as [|b rest]; [reflexivity|].
  rewrite <- (run_loop_filter (b :: rest)).
  destruct (filter kept (b :: rest)); reflexivity.
Qed.

Lemma length_concat_nonempty {A} (l : list (list A)) :
  Forall (fun x => x <> []) l -> List.length l <= List.length (List.concat l).
Proof.
  induction 1 as [|x l Hx _ IH]; [reflexivity|].
  simpl. rewrite length_app. destruct x; [congruence|]. simpl. lia.
Qed.

End Reconstruction.

Section ReconstructionResults.
Context {U : UnicodeDB}.

(** The reconstruction returns; its paragraphs are those of the traced
    loop. *)
Lemma clean_and_merge_paragraphs_sound (text_blocks : list text_block) :
  exists traced,
    clean_and_merge_traced text_blocks = Ok traced /\
    clean_and_merge_paragraphs text_blocks = Ok (map fst traced) /\
    Forall sound_paragraph traced /\
    List.concat (map snd traced) = filter kept text_blocks.
Proof.
  destruct (clean_and_merge_traced_sound text_blocks) as (traced & Ht & Hs & Hp).
  exists traced. rewrite clean_and_merge_traced_erase, Ht. tauto.
Qed.


(** C9: [clean_and_merge_paragraphs] returns, for every input, a list that
    is not longer than the input and whose paragraphs all have a text that
    is not blank; the blank fragments are skipped: the result is the one
    obtained without them. *)
Theorem C9_no_more_paragraphs_none_blank (text_blocks : list text_block) :
  exists merged,
    clean_and_merge_paragraphs text_blocks = Ok merged /\
    List.length merged <= List.length text_blocks /\
    Forall nonblank_text merged /\
    clean_and_merge_paragraphs (filter kept text_blocks) = Ok merged.
Proof.
  destruct (clean_and_merge_paragraphs_sound text_blocks)
    as (traced & _ & Hm & Hs & Hp).
  exists (map fst traced). split; [exact Hm|]. split; [|split].
  - rewrite length_map, <- (length_map snd).
    etransitivity.
    + apply length_concat_nonempty. apply Forall_map.
      eapply Forall_impl; [|exact Hs]. intros [p parts] H. apply H.
    + rewrite Hp. apply filter_length_le.
  - apply Forall_map. eapply Forall_impl; [|exact Hs].
    intros [p parts] H. apply H.
  - now rewrite clean_and_merge_filter.
Qed.


Lemma should_merge_after_hyphen (a b : str) :
  last_char (strip a) = Some 0x2D%N -> _should_merge_texts a b = true.
Proof.
  intros H. rewrite should_merge_texts_eq. cbv zeta.
  unfold ends_in. rewrite H.
  change (sentence_end 45%N) with false. change (comma_hyphen 45%N) with true.
  cbv iota. destruct (starts_in is_upper_AZ (strip b)); [reflexivity|].
  destruct (starts_in is_lower_az (strip b)); reflexivity.
Qed.

Lemma smart_join_after_hyphen (a b : str) :
  last_char (strip a) = Some 0x2D%N ->
  _smart_join_texts a b = removelast (strip a) ++ strip b.
Proof.
  intros H. unfold _smart_join_texts. cbv zeta.
  apply (endswith_char (strip a) 0x2D%N) in H.
  assert (E : endswith (strip a) (lit "-") = true) by exact H.
  now rewrite E.
Qed.

(** C6: for two fragments with trimmed, non-empty texts, the first ending
    with a hyphen and the second not starting a new paragraph, the
    reconstruction returns one paragraph, whose text is the first text
    without its last hyphen followed directly by the second text. *)
Theorem C6_hyphen_joined_without_space (F1 F2 : text_block) (t1 t2 : str) :
  b_text F1 = Some t1 -> trimmed t1 -> endswith t1 (lit "-") = true ->
  b_text F2 = Some t2 -> trimmed t2 -> _is_new_paragraph t2 F2 = false ->
  exists p,
    clean_and_merge_paragraphs [F1; F2] = Ok [p] /\
    b_text p = Some (removelast t1 ++ t2).
Proof.
  intros H1 [Hs1 Hn1] Hend H2 [Hs2 Hn2] Hnew.
  apply (endswith_char t1 0x2D%N) in Hend.
  assert (Hlast : last_char (strip t1) = Some 0x2D%N) by now rewrite Hs1.
  exists (merge_into F1 t1 t2 F2). split.
  - unfold clean_and_merge_paragraphs, run_loop, loop_body.
    rewrite H1, H2. simpl get. rewrite Hs1, Hs2.
    destruct t1 as [|c1 r1]; [congruence|].
    destruct t2 as [|c2 r2]; [congruence|].
    simpl. rewrite Hnew, H1. simpl.
    rewrite (should_merge_after_hyphen _ (c2 :: r2) Hlast). simpl.
    unfold finish. simpl.
    assert (Ht : dict_truthy (merge_into F1 (c1 :: r1) (c2 :: r2) F2) = true).
    { unfold dict_truthy. rewrite b_text_merge_into. simpl.
      now rewrite orb_true_r. }
    now rewrite Ht.
  - rewrite b_text_merge_into, (smart_join_after_hyphen _ t2 Hlast).
    now rewrite Hs1, Hs2.
Qed.

End ReconstructionResults.

(** *** The merge decision *)

(** C2 as stated does not hold of [_should_merge_texts]: the open text
    [a.b] contains a full stop and does not end in a comma, and is merged
    with [Hello]. *)
Lemma C2_short_text_is_merged :
  ~ (forall t1 t2 : str,
       ends_in sentence_end t1 = false ->
       starts_in upper_or_cjk t2 = true ->
       (_should_merge_texts t1 t2 = true <->
        ends_in comma t1 = true \/ has sentence_end t1 = false)).
Proof.
  intros H.
  destruct (H (lit "a.b") (lit "Hello") eq_refl eq_refl) as [Hmerge _].
  destruct (Hmerge eq_refl) as [E|E]; discriminate E.
Qed.

Lemma cjk_not_latin (c : char) :
  is_cjk c = true -> is_upper_AZ c = false /\ is_lower_az c = false.
Proof.
  unfold is_cjk, is_upper_AZ, is_lower_az, in_range.
  rewrite andb_true_iff, !andb_false_iff, !N.leb_le, !N.leb_gt. lia.
Qed.

(** C2, amended: when the stripped open text does not end in
    sentence-terminal punctuation, an incoming text starting with an
    uppercase Latin letter is merged exactly when the open text ends in a
    comma, a CJK comma or a hyphen, or is shorter than 30 characters, or
    contains no sentence-terminal punctuation; an incoming text starting
    with a CJK ideograph is merged exactly when the open text ends in a
    comma, a CJK comma or a hyphen, or both texts are shorter than 50
    characters. *)
Theorem C2_merge_decision_uppercase_and_cjk (t1 t2 : str) :
  ends_in sentence_end (strip t1) = false ->
  (starts_in is_upper_AZ (strip t2) = true ->
   (_should_merge_texts t1 t2 = true <->
    ends_in comma_hyphen (strip t1) = true \/
    List.length (strip t1) < 30 \/
    has sentence_end (strip t1) = false)) /\
  (starts_in is_cjk (strip t2) = true ->
   (_should_merge_texts t1 t2 = true <->
    ends_in comma_hyphen (strip t1) = true \/
    (List.length (strip t1) < 50 /\ List.length (strip t2) < 50))).
Proof.
  intros Hend. rewrite should_merge_texts_eq. cbv zeta. rewrite Hend. split.
  - intros ->.
    rewrite !orb_true_iff, negb_true_iff, Nat.ltb_lt. tauto.
  - intros Hcjk.
    destruct (strip t2) as [|c r] eqn:E; [discriminate|]. simpl in Hcjk.
    destruct (cjk_not_latin c Hcjk) as [Hu Hl]. simpl. rewrite Hu, Hl.
    destruct (ends_in comma_hyphen (strip t1)).
    + split; auto.
    + rewrite andb_true_iff, !Nat.ltb_lt. simpl. split.
      * intros H. right. exact H.
      * intros [H|H]; [discriminate|exact H].
Qed.

Lemma C2_merge_decision_witness :
  _should_merge_texts (lit "a.b") (lit "Hello") = true.
Proof.
  apply (proj1 (C2_merge_decision_uppercase_and_cjk (lit "a.b") (lit "Hello")
                  eq_refl) eq_refl).
  right. left. vm_compute. lia.
Defined.

(** The rule of C2 is the one of the variant [_should_merge_text] of
    [advanced_pdf_extractor.py]. *)
Lemma should_merge_text_rule (t1 t2 : str) :
  ends_in sentence_end (strip t1) = false ->
  starts_in upper_or_cjk (strip t2) = true ->
  (_should_merge_text t1 t2 = true <->
   ends_in comma (strip t1) = true \/ has sentence_end t1 = false).
Proof.
  intros Hend Hstart. rewrite should_merge_text_eq. cbv zeta.
  rewrite Hend, Hstart, orb_true_iff, negb_true_iff. tauto.
Qed.

(** *** The scenarios of the specification *)

Section Scenarios.
Import Scenario.
Local Existing Instance basic_latin.

Lemma scenario_A_result :
  clean_and_merge_paragraphs [A1; A2] =
  Ok [merge_into A1 (lit "Chapter One: Origins") (lit "is a story of courage.") A2].
Proof. vm_compute. reflexivity. Qed.

(** C3 as stated does not hold: the reconstruction of scenario A does not
    return two paragraphs. *)
Lemma C3_scenario_A_is_not_two_paragraphs :
  ~ exists p1 p2, clean_and_merge_paragraphs [A1; A2] = Ok [p1; p2].
Proof.
  intros (p1 & p2 & H). rewrite scenario_A_result in H. discriminate H.
Qed.

(** C3, amended: the first fragment of scenario A is a new-paragraph
    trigger and opens a paragraph; the second is no trigger, starts with a
    lowercase letter and is merged into it: the reconstruction returns one
    paragraph, of text [Chapter One: Origins is a story of courage.] and of
    size 15. *)
Theorem C3_scenario_A_one_paragraph :
  exists p q,
    clean_and_merge_paragraphs [A1; A2] = Ok [p] /\
    _is_new_paragraph (lit "Chapter One: Origins") A1 = true /\
    _is_new_paragraph (lit "is a story of courage.") A2 = false /\
    _should_merge_texts (lit "Chapter One: Origins") (lit "is a story of courage.") = true /\
    b_text p = Some (lit "Chapter One: Origins is a story of courage.") /\
    b_avg_font_size p = Some q /\ (q == 15)%Q.
Proof.
  eexists. exists ((18 + 12) / 2)%Q.
  split; [exact scenario_A_result|].
  repeat split; vm_compute; reflexivity.
Qed.

(** C5 on the code: in scenario B the three fragments are merged into one
    paragraph, whose text is the three texts joined by single spaces, but
    the formatting wraps each of the three italic spans on its own instead
    of the paragraph as a whole. *)
Lemma C5_scenario_B_wrapped_per_span :
  exists p,
    clean_and_merge_paragraphs [B1; B2; B3] = Ok [p] /\
    b_text p = Some B_joined /\
    apply_html_formatting p = B_wrapped_per_span /\
    apply_html_formatting p <> i_open ++ B_joined ++ i_close.
Proof.
  eexists. split; [vm_compute; reflexivity|].
  split; [vm_compute; reflexivity|].
  split; [vm_compute; reflexivity|].
  vm_compute. discriminate.
Qed.

(** C1 on the code: the only line of the input, [Translated by Bob Lee],
    yields the author (through the keyword [by]) and the translator
    (through [translated by]). *)
Lemma C1_one_line_yields_two_person_fields :
  exists r,
    smart_classify_content default_rules [credit_line] = Ok r /\
    clean_and_merge_paragraphs [credit_line] = Ok [credit_line] /\
    formatted_lines [credit_line] = [lit "Translated by Bob Lee"] /\
    Author r = lit "Bob Lee" /\
    Translator r = lit "Bob Lee".
Proof.
  eexists. split; [vm_compute; reflexivity|].
  repeat split; vm_compute; reflexivity.
Qed.

(** C4 on the code: the captured group of the translator pattern excludes
    the comma, so the pattern does not match the line of scenario C and the
    translator stays empty. *)
Lemma C4_scenario_C_translator_empty :
  exists r,
    smart_classify_content default_rules [C_line] = Ok r /\
    formatted_lines [C_line] = [C_text] /\
    re_search (re_person (lit "translator")) C_text = None /\
    Translator r = [] /\
    Translator r <> C_expected.
Proof.
  eexists. split; [vm_compute; reflexivity|].
  repeat split; try (vm_compute; reflexivity).
  vm_compute. discriminate.
Qed.

End Scenarios.

(** *** The classification *)

Section Classification.
Context {U : UnicodeDB}.

Lemma Forall_insert_desc {A} (P : A -> Prop) (key : A -> Q) (x : A) (l : list A) :
  P x -> Forall P l -> Forall P (insert_desc key x l).
Proof.
  intros Hx. induction 1 as [|y l Hy Hl IH]; simpl.
  - now constructor.
  - destruct (Qgtb (key y) (key x)); repeat constructor; assumption.
Qed.

Lemma Forall_sorted_desc {A} (P : A -> Prop) (key : A -> Q) (l : list A) :
  Forall P l -> Forall P (sorted_desc key l).
Proof.
  induction 1 as [|x l Hx Hl IH]; simpl; [constructor|].
  now apply Forall_insert_desc.
Qed.


















End Classification.

Section ClassificationResults.
Context {U : UnicodeDB}.



End ClassificationResults.

(** *** Instances of the general results *)

Section Instances.
Import Scenario.
Local Existing Instance basic_latin.


Lemma C6_hyphen_witness :
  exists p,
    clean_and_merge_paragraphs [H1; H2] = Ok [p] /\
    b_text p = Some (lit "an extraordinary day").
Proof.
  apply (@C6_hyphen_joined_without_space basic_latin H1 H2
           (lit "an extra-") (lit "ordinary day")).
  - reflexivity.
  - split; [reflexivity|discriminate].
  - reflexivity.
  - reflexivity.
  - split; [reflexivity|discriminate].
  - reflexivity.
Defined.




End Instances.

(* ------------------------------------------------------------------ *)
(** ** Further properties of the reconstruction *)

Import Notions Extractor.

Section MoreReconstruction.
Context {U : UnicodeDB}.

Lemma kept_fragment_text (b : text_block) :
  kept b = true <-> fragment_text b <> [].
Proof.
  unfold kept, fragment_text. rewrite negb_true_iff. split.
  - intros H E. apply strip_nil in E. congruence.
  - intros H. destruct (blank (get (b_text b) [])) eqn:E; [|reflexivity].
    apply strip_nil in E. contradiction.
Qed.

Lemma kept_has_text (b : text_block) :
  kept b = true -> exists t, b_text b = Some t.
Proof.
  unfold kept. destruct (b_text b) as [t|]; [eauto|discriminate].
Qed.

Lemma kept_truthy (b : text_block) : kept b = true -> dict_truthy b = true.
Proof.
  intros H. destruct (kept_has_text b H) as [t Ht].
  unfold dict_truthy. rewrite Ht. simpl. now rewrite orb_true_r.
Qed.

(** X1: the reconstruction returns the empty list exactly when every
    fragment of the input has an empty or whitespace-only text (or no
    text). *)
Theorem X1_empty_output_iff_nothing_kept (text_blocks : list text_block) :
  clean_and_merge_paragraphs text_blocks = Ok [] <-> filter kept text_blocks = [].
Proof.
  destruct (clean_and_merge_paragraphs_sound text_blocks)
    as (traced & _ & Hm & Hs & Hp).
  rewrite Hm. split.
  - intros H. injection H as H. apply map_eq_nil in H. subst traced.
    now rewrite <- Hp.
  - intros H. rewrite H in Hp. destruct traced as [|[p parts] rest]; [reflexivity|].
    inversion Hs as [|? ? Hsp _]; subst. destruct Hsp as (_ & Hne & _).
    simpl in Hp. destruct parts; [congruence|discriminate].
Qed.

(** A run of the loop in which no fragment is merged: [cur_ok] holds of the
    open paragraph, and every kept fragment closes it and opens its own. *)
Lemma run_loop_no_merge (cur_ok wanted : text_block -> Prop) :
  (forall b, kept b = true -> wanted b -> cur_ok b) ->
  (forall merged c b,
      cur_ok c -> dict_truthy c = true -> kept b = true -> wanted b ->
      loop_body (LoopState merged (Some c)) b
      = Ok (LoopState (merged ++ [c]) (Some b))) ->
  forall text_blocks st,
    Forall (fun b => kept b = true -> wanted b) text_blocks ->
    (forall c, current_block st = Some c -> cur_ok c /\ dict_truthy c = true) ->
    exists st',
      run_loop st text_blocks = Ok st' /\
      finish st' = finish st ++ filter kept text_blocks.
Proof.
  intros Hinit Hstep text_blocks.
  induction text_blocks as [|b rest IH]; intros st Hall Hcur.
  - exists st. split; [reflexivity|]. now rewrite app_nil_r.
  - inversion Hall as [|? ? Hb Hrest]; subst. simpl.
    destruct (kept b) eqn:Hk.
    + specialize (Hb eq_refl).
      assert (Hnext : exists st1,
                 loop_body st b = Ok st1 /\
                 finish st1 = finish st ++ [b] /\
                 current_block st1 = Some b).
      { destruct st as [merged [c|]].
        - destruct (Hcur c eq_refl) as [Hc Ht].
          rewrite (Hstep merged c b Hc Ht Hk Hb).
          eexists. split; [reflexivity|]. split; [|reflexivity].
          unfold finish. simpl. now rewrite Ht, (kept_truthy b Hk).
        - unfold loop_body.
          assert (Hne := proj1 (kept_fragment_text b) Hk).
          unfold fragment_text in Hne.
          destruct (strip (get (b_text b) [])); [congruence|].
          eexists. split; [reflexivity|]. split; [|reflexivity].
          unfold finish. simpl. now rewrite (kept_truthy b Hk). }
      destruct Hnext as (st1 & H1 & Hf1 & Hc1).
      destruct (IH st1 Hrest) as (st2 & H2 & Hf2).
      { intros c Hc. rewrite Hc1 in Hc. injection Hc as <-.
        split; [now apply Hinit|now apply kept_truthy]. }
      exists st2. rewrite H1. simpl. split; [exact H2|].
      now rewrite Hf2, Hf1, <- app_assoc.
    + rewrite (@loop_body_skip U st b Hk). simpl. now apply IH.
Qed.

Lemma no_merge_result (cur_ok wanted : text_block -> Prop)
      (text_blocks : list text_block) :
  (forall b, kept b = true -> wanted b -> cur_ok b) ->
  (forall merged c b,
      cur_ok c -> dict_truthy c = true -> kept b = true -> wanted b ->
      loop_body (LoopState merged (Some c)) b
      = Ok (LoopState (merged ++ [c]) (Some b))) ->
  Forall (fun b => kept b = true -> wanted b) text_blocks ->
  clean_and_merge_paragraphs text_blocks = Ok (filter kept text_blocks).
Proof.
  intros Hinit Hstep Hall. unfold clean_and_merge_paragraphs.
  destruct text_blocks as [|b rest]; [reflexivity|].
  destruct (@run_loop_no_merge cur_ok wanted Hinit Hstep (b :: rest)
              (LoopState [] None) Hall) as (st & Hrun & Hfin).
  { discriminate. }
  rewrite Hrun. simpl. now rewrite Hfin.
Qed.

(** X2: when every kept fragment is a new-paragraph trigger, nothing is
    merged: the reconstruction returns the kept fragments, unchanged and in
    their order. *)
Theorem X2_triggers_are_never_merged (text_blocks : list text_block) :
  Forall (fun b => kept b = true ->
                   _is_new_paragraph (fragment_text b) b = true) text_blocks ->
  clean_and_merge_paragraphs text_blocks = Ok (filter kept text_blocks).
Proof.
  apply (no_merge_result (fun _ => True)).
  - trivial.
  - intros merged c b _ Ht Hk Hnew. unfold loop_body.
    assert (Hne := proj1 (kept_fragment_text b) Hk).
    unfold fragment_text in Hnew, Hne.
    destruct (strip (get (b_text b) [])) as [|x l]; [congruence|].
    simpl. now rewrite Hnew, Ht.
Qed.

(** X3: nothing is merged across the end of a sentence: when the text of
    every kept fragment ends in sentence-terminal punctuation, the
    reconstruction returns the kept fragments, unchanged and in their
    order. *)
Theorem X3_sentences_are_never_merged (text_blocks : list text_block) :
  Forall (fun b => kept b = true ->
                   ends_in sentence_end (fragment_text b) = true) text_blocks ->
  clean_and_merge_paragraphs text_blocks = Ok (filter kept text_blocks).
Proof.
  apply (no_merge_result
           (fun c => ends_in sentence_end (fragment_text c) = true)).
  - trivial.
  - intros merged c b Hc Ht Hk _. unfold loop_body.
    assert (Hne := proj1 (kept_fragment_text b) Hk).
    unfold fragment_text in Hne, Hc.
    destruct (strip (get (b_text b) [])) as [|x l]; [congruence|].
    simpl. rewrite Ht.
    destruct (_is_new_paragraph (x :: l) b); [reflexivity|].
    destruct (b_text c) as [ct|] eqn:Ect.
    + simpl in *. rewrite should_merge_texts_eq. cbv zeta. now rewrite Hc.
    + simpl in Hc. discriminate.
Qed.

End MoreReconstruction.

Section Provenance.
Context {U : UnicodeDB}.

(** What holds of a fragment taken alone, and is kept by every merge, holds
    of every paragraph that the traced loop returns. *)
Lemma traced_paragraphs_ind (Q : text_block * list text_block -> Prop) :
  (forall b, kept b = true -> Q (b, [b])) ->
  (forall cur parts ct block,
      Q (cur, parts) -> b_text cur = Some ct -> kept block = true ->
      Q (merge_into cur ct (fragment_text block) block, parts ++ [block])) ->
  forall text_blocks traced,
    clean_and_merge_traced text_blocks = Ok traced -> Forall Q traced.
Proof.
  intros Hone Hmerge.
  assert (Hstep : forall st b st',
             traced_body st b = Ok st' ->
             Forall Q (t_merged st) ->
             (forall e, t_current st = Some e -> Q e) ->
             Forall Q (t_merged st') /\ (forall e, t_current st' = Some e -> Q e)).
  { intros st b st' H Hm Hc. unfold traced_body in H.
    destruct (strip (get (b_text b) [])) as [|x l] eqn:Et.
    - injection H as <-. now split.
    - assert (Hk : kept b = true).
      { apply kept_fragment_text. unfold fragment_text. rewrite Et. discriminate. }
      assert (Hpush : forall cur parts,
                 t_current st = Some (cur, parts) ->
                 Forall Q (t_merged st ++ [(cur, parts)])).
      { intros cur parts E. apply Forall_app. split; [exact Hm|].
        constructor; [now apply Hc|constructor]. }
      destruct (t_current st) as [[cur parts]|] eqn:Ec.
      + destruct (_is_new_paragraph (x :: l) b).
        * injection H as <-. simpl. split.
          -- destruct (dict_truthy cur); [now apply Hpush|exact Hm].
          -- intros e He. injection He as <-. now apply Hone.
        * destruct (b_text cur) as [ct|] eqn:Ect; [|discriminate]. simpl in H.
          destruct (_should_merge_texts ct (x :: l)).
          -- injection H as <-. simpl. split; [exact Hm|].
             intros e He. injection He as <-.
             rewrite <- Et. apply Hmerge; auto.
          -- injection H as <-. simpl. split; [now apply Hpush|].
             intros e He. injection He as <-. now apply Hone.
      + injection H as <-. simpl. split; [exact Hm|].
        intros e He. injection He as <-. now apply Hone. }
  assert (Hrun : forall bs st st',
             run_traced st bs = Ok st' ->
             Forall Q (t_merged st) ->
             (forall e, t_current st = Some e -> Q e) ->
             Forall Q (t_merged st') /\ (forall e, t_current st' = Some e -> Q e)).
  { induction bs as [|b rest IH]; intros st st' H Hm Hc.
    - injection H as <-. now split.
    - simpl in H. destruct (traced_body st b) as [st1|] eqn:E1; [|discriminate].
      simpl in H. destruct (Hstep _ _ _ E1 Hm Hc) as [Hm1 Hc1].
      exact (IH _ _ H Hm1 Hc1). }
  intros text_blocks traced H. unfold clean_and_merge_traced in H.
  destruct text_blocks as [|b rest].
  - injection H as <-. constructor.
  - destruct (run_traced _ (b :: rest)) as [st|] eqn:E; [|discriminate].
    simpl in H. injection H as <-.
    destruct (Hrun _ _ _ E) as [Hm Hc]; [constructor|discriminate|].
    unfold finish_traced. destruct (t_current st) as [[cur parts]|] eqn:Ec.
    + destruct (dict_truthy cur); [|exact Hm].
      apply Forall_app. split; [exact Hm|].
      constructor; [now apply Hc|constructor].
    + exact Hm.
Qed.

Lemma b_page_merge_into (cur block : text_block) (ct text : str) :
  b_page (merge_into cur ct text block) = b_page cur.
Proof.
  unfold merge_into. destruct cur as [pg tx [sty|] [av|]]; simpl;
    destruct (b_styles block), (b_avg_font_size block); reflexivity.
Qed.

(** The traced reconstruction returns paragraphs of which [Q] holds. *)
Lemma traced_paragraphs_all (Q : text_block * list text_block -> Prop)
      (text_blocks : list text_block) :
  (forall b, kept b = true -> Q (b, [b])) ->
  (forall cur parts ct block,
      Q (cur, parts) -> b_text cur = Some ct -> kept block = true ->
      Q (merge_into cur ct (fragment_text block) block, parts ++ [block])) ->
  exists traced,
    clean_and_merge_traced text_blocks = Ok traced /\
    clean_and_merge_paragraphs text_blocks = Ok (map fst traced) /\
    List.concat (map snd traced) = filter kept text_blocks /\
    Forall Q traced.
Proof.
  intros Hone Hmerge.
  destruct (clean_and_merge_paragraphs_sound text_blocks)
    as (traced & Ht & Hm & _ & Hp).
  exists traced. repeat (split; [assumption|]).
  exact (traced_paragraphs_ind Q Hone Hmerge text_blocks Ht).
Qed.

(** X4: every paragraph keeps the page of the first fragment it was built
    from. *)
Theorem X4_paragraph_page_is_first_page (text_blocks : list text_block) :
  exists traced,
    clean_and_merge_traced text_blocks = Ok traced /\
    clean_and_merge_paragraphs text_blocks = Ok (map fst traced) /\
    List.concat (map snd traced) = filter kept text_blocks /\
    Forall (fun entry : text_block * list text_block =>
              exists first rest,
                snd entry = first :: rest /\
                b_page (fst entry) = b_page first) traced.
Proof.
  apply traced_paragraphs_all.
  - intros b _. exists b, []. split; reflexivity.
  - intros cur parts ct block (first & rest & Hp & Hpage) _ _.
    simpl in *. subst parts. exists first, (rest ++ [block]).
    split; [reflexivity|]. now rewrite b_page_merge_into.
Qed.


(** X6: the text of a paragraph is the text of its first fragment, as it
    is, to which the stripped texts of the following fragments are joined
    from left to right by [_smart_join_texts]. *)
Theorem X6_paragraph_text_is_joined_in_order (text_blocks : list text_block) :
  exists traced,
    clean_and_merge_traced text_blocks = Ok traced /\
    clean_and_merge_paragraphs text_blocks = Ok (map fst traced) /\
    List.concat (map snd traced) = filter kept text_blocks /\
    Forall (fun entry : text_block * list text_block =>
              exists first rest t0,
                snd entry = first :: rest /\
                b_text first = Some t0 /\
                b_text (fst entry) = Some (joined_text t0 rest)) traced.
Proof.
  apply traced_paragraphs_all.
  - intros b Hk. destruct (kept_has_text b Hk) as [t Ht].
    exists b, [], t. split; [reflexivity|]. split; exact Ht.
  - intros cur parts ct block (first & rest & t0 & Hp & H0 & Ht) Hct _.
    simpl in *. subst parts. exists first, (rest ++ [block]), t0.
    split; [reflexivity|]. split; [exact H0|].
    rewrite b_text_merge_into. unfold joined_text. rewrite fold_left_app.
    simpl. fold (joined_text t0 rest). congruence.
Qed.

End Provenance.

(** *** The join and the merge decision *)

Lemma endswith_space_strip (t : str) : endswith (strip t) (lit " ") = false.
Proof.
  destruct (endswith (strip t) (lit " ")) eqn:E; [|reflexivity].
  apply (endswith_char (strip t) 0x20%N) in E.
  apply strip_last_not_space in E. discriminate.
Qed.

(** X7: [_smart_join_texts] and [_intelligent_text_join] are the same
    function: on stripped texts, the first without its last character
    followed by the second when the first ends with a hyphen, and else the
    two separated by one space. *)
Theorem X7_the_two_joins_agree (text1 text2 : str) :
  _smart_join_texts text1 text2 =
    (if endswith (strip text1) (lit "-")
     then removelast (strip text1) ++ strip text2
     else strip text1 ++ lit " " ++ strip text2) /\
  _intelligent_text_join text1 text2 = _smart_join_texts text1 text2.
Proof.
  unfold _smart_join_texts, _intelligent_text_join. cbv zeta.
  rewrite endswith_space_strip.
  destruct (endswith (strip text1) (lit "-")); [split; reflexivity|].
  repeat match goal with |- context [if ?b then _ else _] => destruct b end;
    split; reflexivity.
Qed.

(** X8: [_should_merge_texts] never merges into a text that, stripped, ends
    in sentence-terminal punctuation; into any other text it always merges
    a text that, stripped, starts with a lowercase Latin letter. *)
Theorem X8_sentence_end_and_lowercase (text1 text2 : str) :
  (ends_in sentence_end (strip text1) = true ->
   _should_merge_texts text1 text2 = false) /\
  (ends_in sentence_end (strip text1) = false ->
   starts_in is_lower_az (strip text2) = true ->
   _should_merge_texts text1 text2 = true).
Proof.
  rewrite should_merge_texts_eq. cbv zeta. split.
  - now intros ->.
  - intros -> Hlow.
    destruct (strip text2) as [|c l]; [discriminate|]. simpl in *.
    assert (Hup : is_upper_AZ c = false).
    { unfold is_lower_az, is_upper_AZ, in_range in *.
      apply andb_true_iff in Hlow. rewrite N.leb_le in Hlow.
      apply andb_false_iff. rewrite !N.leb_gt. lia. }
    now rewrite Hup, Hlow.
Qed.

(* ------------------------------------------------------------------ *)
(** ** Further properties of the formatting and of the classification *)

Lemma startswith_app (p x : str) : startswith (p ++ x) p = true.
Proof.
  induction p as [|c p IH]; simpl; [now destruct x|].
  now rewrite N.eqb_refl, IH.
Qed.

Lemma startswith_refl (s : str) : startswith s s = true.
Proof.
  rewrite <- (app_nil_r s) at 1. apply startswith_app.
Qed.

Lemma startswith_length (s p : str) :
  startswith s p = true -> List.length p <= List.length s.
Proof.
  revert s. induction p as [|a p IH]; intros s H; simpl; [lia|].
  destruct s as [|c s]; simpl in H; [discriminate|].
  apply andb_true_iff in H. destruct H as [_ H]. apply IH in H. simpl. lia.
Qed.

Lemma startswith_app_l (s x p : str) :
  startswith s p = true -> startswith (s ++ x) p = true.
Proof.
  revert s. induction p as [|a p IH]; intros s H; simpl.
  - now destruct (s ++ x).
  - destruct s as [|c s]; simpl in H; [discriminate|].
    apply andb_true_iff in H. destruct H as [Hc H].
    simpl. now rewrite Hc, (IH s H).
Qed.

Lemma contains_eq (p s : str) :
  contains p s =
  startswith s p || match s with [] => false | _ :: s' => contains p s' end.
Proof. destruct s; reflexivity. Qed.

Lemma contains_length (p s : str) :
  contains p s = true -> List.length p <= List.length s.
Proof.
  induction s as [|c s IH]; rewrite contains_eq; intros H;
    apply orb_true_iff in H; destruct H as [H|H].
  - now apply startswith_length.
  - discriminate.
  - now apply startswith_length.
  - apply IH in H. simpl. lia.
Qed.

Lemma contains_refl (s : str) : contains s s = true.
Proof.
  rewrite contains_eq, startswith_refl. reflexivity.
Qed.

Lemma contains_app_l (p a b : str) :
  contains p a = true -> contains p (a ++ b) = true.
Proof.
  induction a as [|c a IH]; intros H.
  - rewrite contains_eq in H. simpl in H. rewrite orb_false_r in H.
    destruct p; [|discriminate]. simpl. now destruct b.
  - rewrite contains_eq in H. apply orb_true_iff in H.
    change ((c :: a) ++ b) with (c :: (a ++ b)). rewrite contains_eq.
    apply orb_true_iff. destruct H as [H|H].
    + left. now apply (startswith_app_l (c :: a) b).
    + right. now apply IH.
Qed.

Lemma contains_app_r (p a b : str) :
  contains p b = true -> contains p (a ++ b) = true.
Proof.
  intros H. induction a as [|c a IH]; [exact H|].
  change ((c :: a) ++ b) with (c :: (a ++ b)). rewrite contains_eq.
  now rewrite IH, orb_true_r.
Qed.

Lemma contains_join (p sep : str) (lines : list str) (line : str) :
  In line lines -> contains p line = true -> contains p (join sep lines) = true.
Proof.
  induction lines as [|l rest IH]; intros Hin Hc; [contradiction|].
  destruct rest as [|l' rest'].
  - destruct Hin as [->|[]]. exact Hc.
  - change (join sep (l :: l' :: rest')) with (l ++ sep ++ join sep (l' :: rest')).
    destruct Hin as [->|Hin].
    + now apply contains_app_l.
    + apply contains_app_r, contains_app_r. now apply IH.
Qed.

Lemma replace_from_skip_all (old new s : str) :
  replace_from old new (List.length s) s = [].
Proof.
  induction s as [|c s IH]; [reflexivity|exact IH].
Qed.

Lemma replace_whole (s new : str) : s <> [] -> replace s s new = new.
Proof.
  destruct s as [|c s]; [congruence|]. intros _.
  unfold replace. cbn [replace_from].
  rewrite startswith_refl. cbn [List.length].
  rewrite Nat.sub_succ, Nat.sub_0_r, replace_from_skip_all.
  apply app_nil_r.
Qed.


(** X10: when the stripped text of every italic span of a block is the
    whole text of the block, and there is such a span, the text is wrapped
    in one pair of italic markers, however many such spans there are. *)
Theorem X10_whole_text_wrapped_once (text_block : text_block) (t : str)
        (styles : list style) :
  b_text text_block = Some t -> t <> [] ->
  b_styles text_block = Some styles ->
  existsb (fun style => get (s_is_italic style) false) styles = true ->
  Forall (fun style => get (s_is_italic style) false = true ->
                       strip (get (s_text style) []) = t) styles ->
  apply_html_formatting text_block = i_open ++ t ++ i_close.
Proof.
  intros Ht Hne Hs Hit Hall. unfold apply_html_formatting. rewrite Hs, Ht.
  destruct styles as [|st0 l0]; [discriminate|].
  simpl get. rewrite Hit.
  set (step := fun formatted_text italic_part : str =>
                 if negb (contains (i_open ++ italic_part ++ i_close) formatted_text)
                 then replace formatted_text italic_part
                        (i_open ++ italic_part ++ i_close)
                 else formatted_text).
  set (parts := flat_map _ (st0 :: l0)).
  assert (Hparts : Forall (eq t) parts /\ parts <> []).
  { subst parts. revert Hit Hall. generalize (st0 :: l0). intros l Hit Hall.
    split.
    - clear Hit. induction Hall as [|st l Hst _ IH]; [constructor|].
      simpl. destruct (get (s_is_italic st) false); [|exact IH].
      rewrite (Hst eq_refl), contains_refl.
      destruct t; [congruence|]. simpl. now constructor.
    - induction Hall as [|st l Hst _ IH]; [discriminate|].
      simpl in *. destruct (get (s_is_italic st) false); [|now apply IH].
      rewrite (Hst eq_refl), contains_refl.
      destruct t; [congruence|]. discriminate. }
  destruct Hparts as [Hall' Hne'].
  assert (Hfix : forall ps, Forall (eq t) ps ->
            fold_left step ps (i_open ++ t ++ i_close) = i_open ++ t ++ i_close).
  { induction 1 as [|p ps Hp _ IH]; [reflexivity|]. subst p.
    cbn [fold_left].
    assert (E : step (i_open ++ t ++ i_close) t = i_open ++ t ++ i_close)
      by (unfold step; now rewrite contains_refl).
    now rewrite E. }
  destruct parts as [|p ps]; [congruence|].
  apply Forall_cons_iff in Hall'. destruct Hall' as [Hp Hps]. subst p.
  cbn [fold_left].
  assert (E : step t t = i_open ++ t ++ i_close).
  { unfold step.
    assert (Hno : contains (i_open ++ t ++ i_close) t = false).
    { destruct (contains _ t) eqn:E; [|reflexivity].
      apply contains_length in E. rewrite !length_app in E. simpl in E. lia. }
    rewrite Hno. simpl negb. cbv iota. now apply replace_whole. }
  change (fold_left step ps (step t t) = i_open ++ t ++ i_close).
  rewrite E. now apply Hfix.
Qed.

Section MoreClassification.
Context {U : UnicodeDB}.

(** Every field of a returned record, in terms of the merged paragraphs. *)
Lemma smart_classify_content_parts (rules : classification_rules)
      (text_blocks : list text_block) (r : classified_data) :
  smart_classify_content rules text_blocks = Ok r ->
  exists merged title_candidates,
    clean_and_merge_paragraphs text_blocks = Ok merged /\
    collect_title_candidates
      (firstn 5 (sorted_desc (fun x => get (b_avg_font_size x) 12%Q) merged))
    = Ok title_candidates /\
    Title r = choose_title title_candidates /\
    find_chinese_title (Title r) merged = Ok (ChineseTitle r) /\
    Category r = category_of (formatted_lines merged) /\
    let persons := scan_persons rules (formatted_lines merged) in
    Author r = p_author persons /\
    Translator r = p_translator persons /\
    Illustrator r = p_illustrator persons /\
    Detail r = detail_of (collect_detail (Title r) (ChineseTitle r) persons
                                         (formatted_lines merged)) /\
    MoreInfo r = info_of (collect_info persons (formatted_lines merged)).
Proof.
  unfold smart_classify_content. intros H.
  destruct (clean_and_merge_paragraphs text_blocks) as [merged|]; [|discriminate].
  cbn [bind] in H.
  destruct (collect_title_candidates _) as [cs|] eqn:Ecs; [|discriminate].
  cbn [bind] in H.
  destruct (find_chinese_title _ merged) as [t|] eqn:Et; [|discriminate].
  cbn [bind] in H. injection H as <-. exists merged, cs.
  split; [reflexivity|]. split; [exact Ecs|]. cbn [Title ChineseTitle].
  split; [reflexivity|]. split; [exact Et|].
  unfold formatted_lines. repeat split; reflexivity.
Qed.

(** X11: as soon as a formatted line contains the two ideographs of
    [manhua], the category is the comics one, whatever else the text
    contains. *)
Theorem X11_comics_have_priority (rules : classification_rules)
        (text_blocks merged : list text_block) (r : classified_data)
        (line : str) :
  smart_classify_content rules text_blocks = Ok r ->
  clean_and_merge_paragraphs text_blocks = Ok merged ->
  In line (formatted_lines merged) ->
  contains [0x6f2b; 0x756b]%N line = true ->
  Category r = [0x6f2b; 0x756b; 0x985e]%N.
Proof.
  intros H Hm Hin Hc.
  destruct (smart_classify_content_parts _ _ H)
    as (merged' & cs & Hm' & _ & _ & _ & Hcat & _).
  rewrite Hm in Hm'. injection Hm' as <-.
  rewrite Hcat. unfold category_of. cbv zeta.
  rewrite (contains_join _ (lit " ") _ _ Hin Hc).
  now rewrite !orb_true_r.
Qed.

Lemma In_insert_desc {A} (key : A -> Q) (x y : A) (l : list A) :
  In y (insert_desc key x l) -> y = x \/ In y l.
Proof.
  induction l as [|z l IH]; simpl.
  - intros [<-|[]]. now left.
  - destruct (Qgtb (key z) (key x)); simpl.
    + intros [<-|H]; [right; now left|].
      destruct (IH H) as [->|H']; [now left|right; now right].
    + intros [<-|H]; [now left|now right].
Qed.

Lemma In_sorted_desc {A} (key : A -> Q) (y : A) (l : list A) :
  In y (sorted_desc key l) -> In y l.
Proof.
  induction l as [|x l IH]; simpl; [tauto|].
  intros H. apply In_insert_desc in H. destruct H as [->|H]; [now left|].
  right. now apply IH.
Qed.

Lemma In_firstn_of {A} (n : nat) (y : A) (l : list A) :
  In y (firstn n l) -> In y l.
Proof.
  revert l. induction n as [|n IH]; intros [|x l]; simpl; try tauto.
  intros [<-|H]; [now left|right; now apply IH].
Qed.

Lemma title_candidate_some (block : text_block) (c : str * Q * text_block) :
  title_candidate block = Ok (Some c) ->
  snd c = block /\
  10 < List.length (fragment_text block) /\
  List.length (fragment_text block) < 200.
Proof.
  unfold title_candidate, fragment_text.
  destruct (b_text block) as [t|]; [|discriminate]. cbn [subscript bind get].
  destruct ((10 <? List.length (strip t)) && (List.length (strip t) <? 200)) eqn:E;
    [|discriminate].
  apply andb_true_iff in E. rewrite !Nat.ltb_lt in E.
  destruct (b_avg_font_size block); [|discriminate]. cbn [subscript bind].
  destruct (b_styles block); [|discriminate]. cbn [subscript bind].
  match goal with |- context [if ?b then _ else _] => destruct b end;
    [|discriminate].
  intros H. injection H as <-. simpl. tauto.
Qed.

Lemma collect_title_candidates_some (blocks : list text_block) :
  forall cs, collect_title_candidates blocks = Ok cs ->
  Forall (fun c : str * Q * text_block =>
            In (snd c) blocks /\
            10 < List.length (fragment_text (snd c)) /\
            List.length (fragment_text (snd c)) < 200) cs.
Proof.
  induction blocks as [|b rest IH]; intros cs H.
  - injection H as <-. constructor.
  - simpl in H. destruct (title_candidate b) as [c|] eqn:Ec; [|discriminate].
    cbn [bind] in H.
    destruct (collect_title_candidates rest) as [cs'|]; [|discriminate].
    cbn [bind] in H. injection H as <-.
    assert (Hrest : Forall (fun c : str * Q * text_block =>
                      In (snd c) (b :: rest) /\
                      10 < List.length (fragment_text (snd c)) /\
                      List.length (fragment_text (snd c)) < 200) cs').
    { eapply Forall_impl; [|exact (IH _ eq_refl)].
      intros c' (Hin & Hl). split; [now right|exact Hl]. }
    destruct c as [c|]; [|exact Hrest].
    constructor; [|exact Hrest].
    destruct (title_candidate_some _ Ec) as (-> & Hl). split; [now left|exact Hl].
Qed.

(** X12: the title, when there is one, starts with the bold marker, and is
    the formatted text of one of the reconstructed paragraphs, of more
    than 10 and less than 200 characters, taken as it is or wrapped in a
    pair of bold markers. *)
Theorem X12_title_is_a_bold_paragraph (rules : classification_rules)
        (text_blocks merged : list text_block) (r : classified_data) :
  smart_classify_content rules text_blocks = Ok r ->
  clean_and_merge_paragraphs text_blocks = Ok merged ->
  Title r = [] \/
  (startswith (Title r) b_open = true /\
   exists block,
     In block merged /\
     10 < List.length (fragment_text block) /\
     List.length (fragment_text block) < 200 /\
     (Title r = apply_html_formatting block \/
      Title r = b_open ++ apply_html_formatting block ++ b_close)).
Proof.
  intros H Hm.
  destruct (smart_classify_content_parts _ _ H)
    as (merged' & cs & Hm' & Hcs & Ht & _).
  rewrite Hm in Hm'. injection Hm' as <-.
  rewrite Ht. unfold choose_title.
  pose proof (collect_title_candidates_some _ Hcs) as Hall.
  assert (Hsorted : Forall (fun c : str * Q * text_block =>
                      In (snd c) merged /\
                      10 < List.length (fragment_text (snd c)) /\
                      List.length (fragment_text (snd c)) < 200)
                    (sorted_desc (fun x => snd (fst x)) cs)).
  { apply Forall_sorted_desc. eapply Forall_impl; [|exact Hall].
    intros c (Hin & Hl). split; [|exact Hl].
    now apply (In_sorted_desc (fun x => get (b_avg_font_size x) 12%Q)),
              (In_firstn_of 5). }
  destruct (sorted_desc _ cs) as [|[[text score] block] rest]; [now left|].
  right. apply Forall_cons_iff in Hsorted.
  destruct Hsorted as [(Hin & Hlo & Hhi) _]. cbn [fst snd] in *.
  destruct (startswith (apply_html_formatting block) b_open) eqn:E;
    cbn [negb].
  - split; [exact E|]. exists block. tauto.
  - split; [apply startswith_app|]. exists block. tauto.
Qed.

Lemma scan_author_some (keywords : list str) (line_clean line_lower author : str) :
  scan_author keywords line_clean line_lower = Some author -> person_ok author.
Proof.
  induction keywords as [|k ks IH]; simpl; [discriminate|].
  repeat match goal with
         | |- context [if ?b then _ else _] => destruct b eqn:?
         | |- context [match ?m with Some _ => _ | None => _ end] => destruct m
         end; try exact IH.
  intros H. injection H as <-. right.
  match goal with E : (_ && _)%bool = true |- _ =>
    apply andb_true_iff in E; destruct E as [E1 E2] end.
  apply Nat.ltb_lt in E1. apply negb_true_iff in E2. now split.
Qed.

Lemma scan_translator_some (keywords : list str)
      (line_clean line_lower translator : str) :
  scan_translator keywords line_clean line_lower = Some translator ->
  person_ok translator.
Proof.
  induction keywords as [|k ks IH]; simpl; [discriminate|].
  repeat match goal with
         | |- context [if ?b then _ else _] => destruct b eqn:?
         | |- context [match ?m with Some _ => _ | None => _ end] => destruct m
         end; try exact IH.
  intros H. injection H as <-. right.
  match goal with E : (_ && _)%bool = true |- _ =>
    apply andb_true_iff in E; destruct E as [E1 E2] end.
  apply Nat.ltb_lt in E1. apply negb_true_iff in E2. now split.
Qed.

Lemma scan_illustrator_some (keywords : list str)
      (line_clean line_lower illustrator : str) :
  scan_illustrator keywords line_clean line_lower = Some illustrator ->
  person_ok illustrator.
Proof.
  induction keywords as [|k ks IH]; simpl; [discriminate|].
  repeat match goal with
         | |- context [if ?b then _ else _] => destruct b eqn:?
         | |- context [match ?m with Some _ => _ | None => _ end] => destruct m
         end; try exact IH.
  intros H. injection H as <-. right.
  match goal with E : (_ && _ && _)%bool = true |- _ =>
    apply andb_true_iff in E; destruct E as [E _];
    apply andb_true_iff in E; destruct E as [E1 E2] end.
  apply Nat.ltb_lt in E1. apply negb_true_iff in E2. now split.
Qed.

Lemma person_body_ok (rules : classification_rules) (st : person_state)
      (line : str) :
  person_ok (p_author st) /\ person_ok (p_translator st) /\
  person_ok (p_illustrator st) ->
  let st' := person_body rules st line in
  person_ok (p_author st') /\ person_ok (p_translator st') /\
  person_ok (p_illustrator st').
Proof.
  intros (Ha & Ht & Hi). unfold person_body.
  destruct (is_empty (strip line) || _); [now repeat split|].
  destruct (is_empty (p_author st));
    [destruct (scan_author _ _ _) as [a|] eqn:Ea|];
    cbn [p_author p_translator p_illustrator used_lines];
    (destruct (is_empty (p_translator st));
     [destruct (scan_translator _ _ _) as [t|] eqn:Et|]);
    cbn [p_author p_translator p_illustrator used_lines];
    (destruct (is_empty (p_illustrator st));
     [destruct (scan_illustrator _ _ _) as [i|] eqn:Ei|]);
    cbn [p_author p_translator p_illustrator used_lines];
    repeat split;
    eauto using scan_author_some, scan_translator_some, scan_illustrator_some.
Qed.

Lemma scan_persons_ok (rules : classification_rules) (lines : list str) :
  let persons := scan_persons rules lines in
  person_ok (p_author persons) /\ person_ok (p_translator persons) /\
  person_ok (p_illustrator persons).
Proof.
  unfold scan_persons.
  assert (H : forall st,
             person_ok (p_author st) /\ person_ok (p_translator st) /\
             person_ok (p_illustrator st) ->
             let st' := fold_left (person_body rules) lines st in
             person_ok (p_author st') /\ person_ok (p_translator st') /\
             person_ok (p_illustrator st')).
  { induction lines as [|line rest IH]; intros st Hst; [exact Hst|].
    simpl. apply IH. now apply person_body_ok. }
  apply H. repeat split; now left.
Qed.

(** X13: each of the author, the translator and the illustrator of a
    returned record is either empty or a text of at least two characters
    that is not made of decimal digits only. *)
Theorem X13_person_fields_empty_or_names (rules : classification_rules)
        (text_blocks : list text_block) (r : classified_data) :
  smart_classify_content rules text_blocks = Ok r ->
  person_ok (Author r) /\ person_ok (Translator r) /\ person_ok (Illustrator r).
Proof.
  intros H.
  destruct (smart_classify_content_parts _ _ H)
    as (merged & cs & _ & _ & _ & _ & _ & Ha & Ht & Hi & _).
  rewrite Ha, Ht, Hi. apply scan_persons_ok.
Qed.






(** X15: an input none of whose fragments has a text other than
    whitespace is classified as the record whose fields are all empty. *)
Theorem X15_blank_input_gives_empty_record (rules : classification_rules)
        (text_blocks : list text_block) :
  filter kept text_blocks = [] ->
  smart_classify_content rules text_blocks = Ok empty_record.
Proof.
  intros H.
  assert (Hm : clean_and_merge_paragraphs text_blocks = Ok []).
  { rewrite <- clean_and_merge_filter, H. reflexivity. }
  unfold smart_classify_content. rewrite Hm. simpl.
  unfold category_of. simpl. rewrite lower_empty. reflexivity.
Qed.

End MoreClassification.

(* ------------------------------------------------------------------ *)
(** ** Properties of the extraction *)

Lemma lstrip_nonspace (c : char) (s : str) :
  isspace c = false -> lstrip (c :: s) = c :: s.
Proof. intros H. simpl. now rewrite H. Qed.

Lemma lstrip_snoc (a : str) (x : char) :
  isspace x = false -> lstrip (a ++ [x]) = lstrip a ++ [x].
Proof.
  intros Hx. induction a as [|c a IH]; simpl.
  - now rewrite Hx.
  - destruct (isspace c); [exact IH|reflexivity].
Qed.

Lemma rstrip_cons (x : char) (s : str) :
  isspace x = false -> rstrip (x :: s) = x :: rstrip s.
Proof.
  intros Hx. unfold rstrip. simpl.
  now rewrite (@lstrip_snoc (rev s) x Hx), rev_app_distr.
Qed.

Lemma strip_first_not_space (s : str) (c : char) (r : str) :
  strip s = c :: r -> isspace c = false.
Proof.
  unfold strip. destruct (lstrip s) as [|x l] eqn:E.
  - discriminate.
  - pose proof (lstrip_head _ E) as Hx. rewrite (@rstrip_cons x l Hx).
    intros H. injection H as <- _. exact Hx.
Qed.

Lemma tight_last_rev (s : str) (c : char) :
  last_char s = Some c -> exists r, rev s = c :: r.
Proof.
  rewrite last_char_rev. destruct (rev s) as [|x r]; simpl; [discriminate|].
  intros H. injection H as ->. now exists r.
Qed.

Lemma tight_strip (s : str) : tight s -> strip s = s.
Proof.
  intros [(c & r & -> & Hc) (d & Hd & Hds)].
  unfold strip. rewrite (@lstrip_nonspace c r Hc). unfold rstrip.
  destruct (tight_last_rev _ Hd) as [r' Hr]. rewrite Hr.
  rewrite (@lstrip_nonspace d r' Hds), <- Hr. apply rev_involutive.
Qed.

Lemma strip_tight (s : str) : strip s <> [] -> tight (strip s).
Proof.
  intros Hne. split.
  - destruct (strip s) as [|c r] eqn:E; [congruence|].
    exists c, r. split; [reflexivity|exact (strip_first_not_space _ E)].
  - destruct (last_char (strip s)) as [c|] eqn:E.
    + exists c. split; [reflexivity|exact (strip_last_not_space _ E)].
    + rewrite last_char_rev in E. destruct (rev (strip s)) eqn:Er; [|discriminate].
      apply (f_equal (@rev char)) in Er. rewrite rev_involutive in Er.
      simpl in Er. congruence.
Qed.

(** Stripping is idempotent. *)
Lemma strip_strip (s : str) : strip (strip s) = strip s.
Proof.
  destruct (strip s) as [|c r] eqn:E; [reflexivity|].
  rewrite <- E. apply tight_strip, strip_tight. congruence.
Qed.

Lemma tight_strip_space (s : str) : tight s -> strip (s ++ lit " ") = s.
Proof.
  intros [(c & r & -> & Hc) (d & Hd & Hds)].
  destruct (tight_last_rev _ Hd) as [r' Hr].
  unfold strip. change ((c :: r) ++ lit " ") with (c :: (r ++ lit " ")).
  rewrite (@lstrip_nonspace c (r ++ lit " ") Hc). unfold rstrip.
  change (c :: r ++ lit " ") with ((c :: r) ++ lit " ").
  rewrite rev_app_distr, Hr.
  change (rev (lit " ") ++ d :: r') with (0x20%N :: d :: r').
  change (lstrip (0x20%N :: d :: r')) with (lstrip (d :: r')).
  rewrite (@lstrip_nonspace d r' Hds), <- Hr. apply rev_involutive.
Qed.

Lemma tight_app (a b : str) : tight a -> tight b -> tight (a ++ lit " " ++ b).
Proof.
  intros [(c & r & -> & Hc) _] [(c' & r' & -> & _) (d & Hd & Hds)]. split.
  - exists c, (r ++ lit " " ++ c' :: r'). split; [reflexivity|exact Hc].
  - exists d. split; [|exact Hds].
    rewrite last_char_rev in *. rewrite !rev_app_distr.
    destruct (rev (c' :: r')) as [|x l]; [discriminate|]. exact Hd.
Qed.

Lemma tight_join (ts : list str) :
  Forall tight ts -> ts <> [] -> tight (join (lit " ") ts).
Proof.
  induction 1 as [|t ts Ht Hts IH]; [congruence|]. intros _.
  destruct ts as [|t' ts']; [exact Ht|].
  change (join (lit " ") (t :: t' :: ts'))
    with (t ++ lit " " ++ join (lit " ") (t' :: ts')).
  apply tight_app; [exact Ht|]. apply IH. discriminate.
Qed.

Lemma concat_spaced_join (ts : list str) :
  ts <> [] ->
  List.concat (map (fun t => t ++ lit " ") ts) = join (lit " ") ts ++ lit " ".
Proof.
  induction ts as [|t ts IH]; [congruence|]. intros _.
  destruct ts as [|t' ts']; [simpl; now rewrite app_nil_r|].
  change (join (lit " ") (t :: t' :: ts'))
    with (t ++ lit " " ++ join (lit " ") (t' :: ts')).
  cbn [map List.concat]. cbn [map List.concat] in IH.
  rewrite IH by discriminate. now rewrite <- !app_assoc.
Qed.

Section ExtractionProperties.
Context {U : UnicodeDB}.

Lemma span_body_cases (line_text : str) (line_styles : list style) (sp : span) :
  span_body (line_text, line_styles) sp = (line_text, line_styles) \/
  exists st,
    span_body (line_text, line_styles) sp
    = (line_text ++ get (s_text st) [] ++ lit " ", line_styles ++ [st]) /\
    complete_style st.
Proof.
  unfold span_body. destruct (strip (sp_text sp)) as [|c r] eqn:E.
  - now left.
  - right. cbn [is_empty].
    match goal with |- context [line_styles ++ [?x]] => exists x end.
    split; [reflexivity|].
    repeat split; try (eexists; reflexivity).
    exists (c :: r). split; [reflexivity|]. split; [|discriminate].
    rewrite <- E. apply strip_strip.
Qed.

(** The loop over the spans of a line: the spans built, and the text
    accumulated, which is their texts each followed by a space. *)
Lemma fold_span_body (spans : list span) :
  forall line_text line_styles,
  exists styles,
    fold_left span_body spans (line_text, line_styles)
    = (line_text
       ++ List.concat (map (fun st => get (s_text st) [] ++ lit " ") styles),
       line_styles ++ styles) /\
    Forall complete_style styles.
Proof.
  induction spans as [|sp rest IH]; intros line_text line_styles.
  - exists []. simpl. now rewrite !app_nil_r.
  - cbn [fold_left].
    destruct (span_body_cases line_text line_styles sp) as [E|(st & E & Hst)];
      rewrite E.
    + apply IH.
    + destruct (IH (line_text ++ get (s_text st) [] ++ lit " ")
                   (line_styles ++ [st])) as (styles & Hf & Hall).
      exists (st :: styles). split; [|now constructor].
      etransitivity; [exact Hf|].
      cbn [map List.concat]. now rewrite <- !app_assoc.
Qed.

Lemma line_fragment_extracted (pages page_num : nat) (spans : list span) :
  page_num < pages ->
  Forall (extracted_fragment pages) (line_fragment page_num spans).
Proof.
  intros Hp. unfold line_fragment.
  destruct (fold_span_body spans [] []) as (styles & Hf & Hall).
  match goal with |- context [fold_left span_body spans ?a] =>
    replace (fold_left span_body spans a)
      with (List.concat (map (fun st => get (s_text st) [] ++ lit " ") styles),
            styles) by (symmetry; exact Hf) end.
  destruct styles as [|st styles'].
  - simpl. constructor.
  - set (texts := map (fun st => get (s_text st) []) (st :: styles')).
    assert (Ht : Forall tight texts).
    { subst texts. apply Forall_map. eapply Forall_impl; [|exact Hall].
      intros s ((t & Hs & Hstrip & Hne) & _). rewrite Hs. simpl.
      rewrite <- Hstrip. apply strip_tight. now rewrite Hstrip. }
    assert (Hne : texts <> []) by discriminate.
    assert (Hline : List.concat (map (fun st => get (s_text st) [] ++ lit " ")
                                     (st :: styles'))
                    = join (lit " ") texts ++ lit " ").
    { rewrite <- (concat_spaced_join Hne). subst texts. now rewrite map_map. }
    rewrite Hline, (tight_strip_space (tight_join Ht Hne)).
    pose proof (tight_join Ht Hne) as [(c & r & Ej & _) _].
    rewrite Ej. cbn [is_empty]. rewrite <- Ej.
    constructor; [|constructor].
    exists (st :: styles'). repeat split; try reflexivity; try discriminate.
    + exact Hall.
    + exists (S page_num). split; [|lia].
      cbn [b_page]. f_equal. lia.
Qed.

Lemma pages_fragments_extracted (pages : list page) :
  forall total page_num,
    page_num + List.length pages <= total ->
    Forall (extracted_fragment total) (pages_fragments page_num pages).
Proof.
  induction pages as [|blocks rest IH]; intros total page_num Hlen.
  - constructor.
  - simpl in *. apply Forall_app. split.
    + apply Forall_flat_map, Forall_forall. intros block _.
      unfold block_fragments. destruct (lb_lines block) as [lines|]; [|constructor].
      apply Forall_flat_map, Forall_forall. intros line _.
      apply line_fragment_extracted. lia.
    + apply IH. lia.
Qed.


(** X16: every fragment that [extract_text_with_styles] returns has at
    least one span; its spans have their five keys and a trimmed,
    non-empty text; its text is the texts of its spans joined by single
    spaces, its size the mean of their sizes, and its page a page number of
    the document, counted from 1. *)
Theorem X16_extracted_fragments (pages : list page) :
  Forall (extracted_fragment (List.length pages))
         (extract_text_with_styles (Some pages)).
Proof.
  unfold extract_text_with_styles. now apply pages_fragments_extracted.
Qed.


End ExtractionProperties.

(* ------------------------------------------------------------------ *)
(** ** What the patterns of the program match *)

Import Language.

Section Engine.

Lemma rmatch_star {A} (r1 : regex) (st : mstate) (k : mstate -> option A) :
  rmatch (Star r1) st k = star_loop r1 k (S (List.length (m_rest st))) st.
Proof. reflexivity. Qed.

Lemma rmatch_lazy {A} (r1 : regex) (st : mstate) (k : mstate -> option A) :
  rmatch (LazyStar r1) st k = lazy_loop r1 k (S (List.length (m_rest st))) st.
Proof. reflexivity. Qed.

(** Every answer of the matcher is the answer of its continuation at a
    state that the pattern reaches. *)
Lemma rmatch_sound {A} (r : regex) :
  forall (st : mstate) (k : mstate -> option A) (a : A),
    rmatch r st k = Some a ->
    exists st', Matches r st st' /\ k st' = Some a.
Proof.
  induction r as [|p|r1 IH1 r2 IH2|r1 IH1 r2 IH2|r1 IH1|r1 IH1|r1 IH1| |];
    intros st k a H.
  - exists st. split; [constructor|exact H].
  - simpl in H. destruct (m_rest st) as [|c s'] eqn:E; [discriminate|].
    destruct (p c) eqn:Ep; [|discriminate].
    eexists. split; [|exact H]. now apply M_cls with (c := c).
  - simpl in H. destruct (IH1 _ _ _ H) as (st1 & M1 & H1).
    destruct (IH2 _ _ _ H1) as (st2 & M2 & H2).
    exists st2. split; [now apply M_cat with st1|exact H2].
  - simpl in H. destruct (rmatch r1 st k) as [a1|] eqn:E1.
    + injection H as <-. destruct (IH1 _ _ _ E1) as (st' & M & Hk).
      exists st'. split; [now apply M_alt_l|exact Hk].
    + destruct (IH2 _ _ _ H) as (st' & M & Hk).
      exists st'. split; [now apply M_alt_r|exact Hk].
  - rewrite rmatch_star in H.
    set (fuel := S (List.length (m_rest st))) in H. clearbody fuel.
    revert st H. induction fuel as [|fuel IHf]; intros st H; simpl in H.
    + exists st. split; [constructor|exact H].
    + match type of H with match ?m with _ => _ end = _ =>
        destruct m as [a1|] eqn:E1 end.
      * injection H as <-. destruct (IH1 _ _ _ E1) as (st1 & M1 & H1).
        destruct (m_pos st <? m_pos st1); [|discriminate].
        destruct (IHf _ H1) as (st2 & M2 & H2).
        exists st2. split; [now apply M_star_more with st1|exact H2].
      * exists st. split; [constructor|exact H].
  - rewrite rmatch_lazy in H.
    set (fuel := S (List.length (m_rest st))) in H. clearbody fuel.
    revert st H. induction fuel as [|fuel IHf]; intros st H; simpl in H.
    + exists st. split; [constructor|exact H].
    + destruct (k st) as [a1|] eqn:Ek.
      * injection H as <-. exists st. split; [constructor|exact Ek].
      * destruct (IH1 _ _ _ H) as (st1 & M1 & H1).
        destruct (m_pos st <? m_pos st1); [|discriminate].
        destruct (IHf _ H1) as (st2 & M2 & H2).
        exists st2. split; [now apply M_lazy_more with st1|exact H2].
  - simpl in H. destruct (IH1 _ _ _ H) as (st1 & M1 & H1).
    eexists. split; [apply M_grp; exact M1|exact H1].
  - simpl in H. destruct (m_pos st =? 0) eqn:E; [|discriminate].
    exists st. split; [|exact H]. constructor. now apply Nat.eqb_eq.
  - simpl in H. exists st.
    destruct (m_rest st) as [|c [|d l]] eqn:E.
    + split; [|exact H]. constructor. now left.
    + destruct (c =? 10)%N eqn:Ec; [|discriminate].
      split; [|exact H]. constructor. right. apply N.eqb_eq in Ec. now subst.
    + discriminate.
Qed.

(** A pattern passes over characters of the subject, in order. *)
Lemma Matches_advance (r : regex) (st st' : mstate) :
  Matches r st st' ->
  exists n, n <= List.length (m_rest st) /\
            m_pos st' = m_pos st + n /\
            m_rest st' = skipn n (m_rest st).
Proof.
  induction 1 as [st|p st c s' E Hp|r1 r2 st st1 st2 _ IH1 _ IH2
                 |r1 r2 st st' _ IH|r1 r2 st st' _ IH
                 |r st|r st st1 st2 _ IH1 _ IH2
                 |r st|r st st1 st2 _ IH1 _ IH2
                 |r st st1 _ IH|st|st].
  all: try (exists 0; simpl; split; [lia|]; split; [lia|reflexivity]).
  - exists 1. simpl. rewrite E. simpl. split; [lia|]. split; [lia|reflexivity].
  - destruct IH1 as (n1 & L1 & P1 & R1). destruct IH2 as (n2 & L2 & P2 & R2).
    exists (n1 + n2). rewrite R1 in L2, R2. rewrite length_skipn in L2.
    rewrite skipn_skipn in R2. rewrite (Nat.add_comm n1 n2).
    split; [lia|]. split; [lia|exact R2].
  - exact IH.
  - exact IH.
  - destruct IH1 as (n1 & L1 & P1 & R1). destruct IH2 as (n2 & L2 & P2 & R2).
    exists (n1 + n2). rewrite R1 in L2, R2. rewrite length_skipn in L2.
    rewrite skipn_skipn in R2. rewrite (Nat.add_comm n1 n2).
    split; [lia|]. split; [lia|exact R2].
  - destruct IH1 as (n1 & L1 & P1 & R1). destruct IH2 as (n2 & L2 & P2 & R2).
    exists (n1 + n2). rewrite R1 in L2, R2. rewrite length_skipn in L2.
    rewrite skipn_skipn in R2. rewrite (Nat.add_comm n1 n2).
    split; [lia|]. split; [lia|exact R2].
  - exact IH.
Qed.


End Engine.

Section Runs.

Lemma advance_0 (st : mstate) : advance 0 st = st.
Proof. destruct st. unfold advance. simpl. now rewrite Nat.add_0_r. Qed.

Lemma Matches_cls (p : char -> bool) (st st' : mstate) :
  Matches (Cls p) st st' ->
  exists c s', m_rest st = c :: s' /\ p c = true /\
               st' = MState (S (m_pos st)) s' (m_group st).
Proof.
  inversion 1; subst. eauto.
Qed.

Lemma run_step (p : char -> bool) (st : mstate) (c : char) (s' : str) (n : nat) :
  m_rest st = c :: s' -> p c = true ->
  n <= List.length s' -> forallb p (firstn n s') = true ->
  S n <= List.length (m_rest st) /\
  forallb p (firstn (S n) (m_rest st)) = true /\
  advance n (MState (S (m_pos st)) s' (m_group st)) = advance (S n) st.
Proof.
  intros E Hp Hn Hall. rewrite E. simpl. rewrite Hp, Hall.
  split; [lia|]. split; [reflexivity|].
  unfold advance. simpl. rewrite E. simpl. f_equal. lia.
Qed.

Lemma Matches_star_cls (p : char -> bool) (st st' : mstate) :
  Matches (Star (Cls p)) st st' ->
  exists n, n <= List.length (m_rest st) /\
            forallb p (firstn n (m_rest st)) = true /\
            st' = advance n st.
Proof.
  remember (Star (Cls p)) as r eqn:Er. intros M.
  induction M as [| | | | |r0 st|r0 st st1 st2 M1 _ M2 IH2| | | | |];
    try discriminate; injection Er as ->.
  - exists 0. split; [lia|]. split; [reflexivity|]. now rewrite advance_0.
  - destruct (Matches_cls M1) as (c & s' & E & Hp & E1).
    destruct (IH2 eq_refl) as (n & Hn & Hall & E2).
    rewrite E1 in Hn, Hall, E2. simpl in Hn, Hall.
    exists (S n). destruct (@run_step p st c s' n E Hp Hn Hall) as (H1 & H2 & H3).
    rewrite E2, H3. now repeat split.
Qed.

Lemma Matches_lazy_cls (p : char -> bool) (st st' : mstate) :
  Matches (LazyStar (Cls p)) st st' ->
  exists n, n <= List.length (m_rest st) /\
            forallb p (firstn n (m_rest st)) = true /\
            st' = advance n st.
Proof.
  remember (LazyStar (Cls p)) as r eqn:Er. intros M.
  induction M as [| | | | | | |r0 st|r0 st st1 st2 M1 _ M2 IH2| | |];
    try discriminate; injection Er as ->.
  - exists 0. split; [lia|]. split; [reflexivity|]. now rewrite advance_0.
  - destruct (Matches_cls M1) as (c & s' & E & Hp & E1).
    destruct (IH2 eq_refl) as (n & Hn & Hall & E2).
    rewrite E1 in Hn, Hall, E2. simpl in Hn, Hall.
    exists (S n). destruct (@run_step p st c s' n E Hp Hn Hall) as (H1 & H2 & H3).
    rewrite E2, H3. now repeat split.
Qed.

Lemma Matches_cat (r1 r2 : regex) (st st' : mstate) :
  Matches (Cat r1 r2) st st' ->
  exists st1, Matches r1 st st1 /\ Matches r2 st1 st'.
Proof. inversion 1; subst. eauto. Qed.

(** [p+] and [p+?] pass over one or more characters of the class. *)
Lemma Matches_plus_cls (p : char -> bool) (st st' : mstate) :
  Matches (Plus (Cls p)) st st' \/ Matches (LazyPlus (Cls p)) st st' ->
  exists n, 1 <= n <= List.length (m_rest st) /\
            forallb p (firstn n (m_rest st)) = true /\
            st' = advance n st.
Proof.
  intros M.
  assert (H : exists c s' n,
             m_rest st = c :: s' /\ p c = true /\ n <= List.length s' /\
             forallb p (firstn n s') = true /\
             st' = advance n (MState (S (m_pos st)) s' (m_group st))).
  { destruct M as [M|M]; apply Matches_cat in M;
      destruct M as (st1 & M1 & M2);
      destruct (Matches_cls M1) as (c & s' & E & Hp & E1);
      [apply Matches_star_cls in M2|apply Matches_lazy_cls in M2];
      destruct M2 as (n & Hn & Hall & E2);
      rewrite E1 in Hn, Hall, E2; simpl in Hn, Hall;
      exists c, s', n; auto. }
  destruct H as (c & s' & n & E & Hp & Hn & Hall & ->).
  exists (S n). destruct (@run_step p st c s' n E Hp Hn Hall) as (H1 & H2 & H3).
  rewrite H3. split; [lia|]. now split.
Qed.

Lemma Matches_grp (r : regex) (st st' : mstate) :
  Matches (Grp r) st st' ->
  exists st1, Matches r st st1 /\
              st' = MState (m_pos st1) (m_rest st1)
                           (Some (firstn (m_pos st1 - m_pos st) (m_rest st))).
Proof. inversion 1; subst. eauto. Qed.

(** What [match_at] returns, in terms of [Matches]. *)
Lemma match_at_sound (r : regex) (pos : nat) (s : str) (m : match_obj) :
  match_at r pos s = Some m ->
  exists st', Matches r (MState pos s None) st' /\
              m = MatchObj pos (m_pos st') (m_group st').
Proof.
  unfold match_at. intros H. apply rmatch_sound in H.
  destruct H as (st' & M & E). exists st'. split; [exact M|congruence].
Qed.

(** The width of a match is at most what is left of the subject. *)
Lemma match_at_width (r : regex) (pos : nat) (s : str) (m : match_obj) :
  match_at r pos s = Some m -> m_end m - m_start m <= List.length s.
Proof.
  intros H. destruct (match_at_sound _ _ _ H) as (st' & M & ->).
  destruct (Matches_advance M) as (n & Hn & Hp & _). simpl in *. lia.
Qed.

End Runs.

Section Substitution.

(** A relation between the result of [re.sub] and its subject that holds
    of the empty texts, is kept when the same character is put in front of
    both, and is kept when a match is replaced, holds of every result. *)
Lemma sub_from_rel (R : str -> str -> Prop) (r : regex) (tpl : list tpl_item) :
  R [] [] ->
  (forall c o i, R o i -> R (c :: o) (c :: i)) ->
  (forall pos s m o,
      match_at r pos s = Some m ->
      R o (skipn (m_end m - m_start m) s) -> R (expand tpl m ++ o) s) ->
  forall s count skip pos,
    skip <= List.length s ->
    R (sub_from r tpl count skip pos s) (skipn skip s).
Proof.
  intros Hnil Hcons Hchunk.
  induction s as [|c s' IH]; intros count skip pos Hskip.
  - assert (skip = 0) by (simpl in Hskip; lia). subst skip.
    cbn [sub_from skipn].
    destruct (if match count with Some 0 => true | _ => false end
              then None else match_at r pos []) as [m|] eqn:E.
    + apply (Hchunk pos [] m []).
      * destruct count as [[|n]|]; [discriminate|exact E|exact E].
      * now rewrite skipn_nil.
    + exact Hnil.
  - destruct skip as [|k].
    + cbn [sub_from skipn].
      destruct (if match count with Some 0 => true | _ => false end
                then None else match_at r pos (c :: s')) as [m|] eqn:E.
      * assert (Em : match_at r pos (c :: s') = Some m)
          by (destruct count as [[|n]|]; [discriminate|exact E|exact E]).
        pose proof (match_at_width _ _ _ Em) as Hw.
        destruct (m_end m - m_start m) as [|w'] eqn:Ew.
        -- apply (Hchunk pos (c :: s') m); [exact Em|]. rewrite Ew.
           cbn [skipn]. apply Hcons.
           apply (IH (option_map Init.Nat.pred count) 0 (S pos)). lia.
        -- apply (Hchunk pos (c :: s') m); [exact Em|]. rewrite Ew.
           cbn [skipn]. apply IH. simpl in Hw. lia.
      * apply Hcons. apply (IH count 0 (S pos)). lia.
    + cbn [sub_from skipn].
      assert (E : (if match count with Some 0 => true | _ => false end
                   then @None match_obj else None) = None)
        by (destruct count as [[|n]|]; reflexivity).
      rewrite E. apply IH. simpl in Hskip. lia.
Qed.

Lemma re_sub_rel (R : str -> str -> Prop) (r : regex) (tpl : list tpl_item)
      (s : str) :
  R [] [] ->
  (forall c o i, R o i -> R (c :: o) (c :: i)) ->
  (forall pos s m o,
      match_at r pos s = Some m ->
      R o (skipn (m_end m - m_start m) s) -> R (expand tpl m ++ o) s) ->
  R (re_sub r tpl s) s.
Proof.
  intros H1 H2 H3. unfold re_sub.
  apply (@sub_from_rel R r tpl H1 H2 H3 s None 0 0). simpl. lia.
Qed.




End Substitution.

(* ------------------------------------------------------------------ *)
(** ** Properties of [clean_text_content] *)

Section Cleaning.

Lemma non_space_app (a b : str) : non_space (a ++ b) = non_space a ++ non_space b.
Proof. apply filter_app. Qed.

Lemma non_space_cons (c : char) (s : str) :
  non_space (c :: s) = non_space [c] ++ non_space s.
Proof. simpl. now destruct (isspace c). Qed.

Lemma non_space_blank (s : str) : forallb isspace s = true -> non_space s = [].
Proof.
  induction s as [|c s IH]; [reflexivity|]. simpl.
  intros H. apply andb_true_iff in H. destruct H as [Hc Hs].
  rewrite Hc. simpl. now apply IH.
Qed.

Lemma non_space_lstrip (s : str) : non_space (lstrip s) = non_space s.
Proof.
  induction s as [|c s IH]; [reflexivity|]. simpl.
  destruct (isspace c) eqn:E; simpl; [exact IH|]. now rewrite E.
Qed.

Lemma non_space_rev (s : str) : non_space (rev s) = rev (non_space s).
Proof.
  induction s as [|c s IH]; [reflexivity|]. simpl.
  rewrite non_space_app, IH. simpl.
  destruct (isspace c); simpl; [now rewrite app_nil_r|reflexivity].
Qed.

Lemma non_space_strip (s : str) : non_space (strip s) = non_space s.
Proof.
  unfold strip, rstrip.
  now rewrite non_space_rev, non_space_lstrip, non_space_rev, rev_involutive,
    non_space_lstrip.
Qed.

Lemma length_lstrip (s : str) : List.length (lstrip s) <= List.length s.
Proof.
  induction s as [|c s IH]; [reflexivity|]. simpl.
  destruct (isspace c); simpl; lia.
Qed.

Lemma length_strip (s : str) : List.length (strip s) <= List.length s.
Proof.
  unfold strip, rstrip. rewrite length_rev.
  etransitivity; [apply length_lstrip|]. rewrite length_rev. apply length_lstrip.
Qed.

Lemma firstn_succ_skipn {A} (n : nat) (s : list A) (c : A) (s' : list A) :
  skipn n s = c :: s' -> firstn (S n) s = firstn n s ++ [c].
Proof.
  revert s. induction n as [|n IH]; intros s H.
  - simpl in H. subst s. reflexivity.
  - destruct s as [|x s]; [discriminate|]. simpl in H.
    change (firstn (S (S n)) (x :: s)) with (x :: firstn (S n) s).
    now rewrite (IH s H).
Qed.

(** A replacement that keeps the characters that are not whitespace of
    every match, and is not longer than it, gives a [re.sub] that keeps
    them in the whole text, and does not lengthen it. *)
Lemma re_sub_keeps_non_space (r : regex) (tpl : list tpl_item) (s : str) :
  (forall pos s m,
      match_at r pos s = Some m ->
      non_space (expand tpl m) = non_space (firstn (m_end m - m_start m) s) /\
      List.length (expand tpl m) <= m_end m - m_start m) ->
  non_space (re_sub r tpl s) = non_space s /\
  List.length (re_sub r tpl s) <= List.length s.
Proof.
  intros Hm.
  apply (re_sub_rel (fun o i => non_space o = non_space i /\
                                List.length o <= List.length i)).
  - split; reflexivity.
  - intros c o i [H1 H2]. simpl. rewrite H1. split; [reflexivity|lia].
  - intros pos s0 m o E [H1 H2]. destruct (Hm _ _ _ E) as [Hn Hl].
    pose proof (match_at_width _ _ _ E) as Hw. split.
    + rewrite non_space_app, Hn, H1, <- non_space_app. now rewrite firstn_skipn.
    + rewrite length_app. rewrite length_skipn in H2. lia.
Qed.

(** r'\s+' replaced by one space. *)
Lemma spaces_chunk (pos : nat) (s : str) (m : match_obj) :
  match_at (Plus (Cls isspace)) pos s = Some m ->
  non_space (expand [TChr 0x20%N] m) = non_space (firstn (m_end m - m_start m) s) /\
  List.length (expand [TChr 0x20%N] m) <= m_end m - m_start m.
Proof.
  intros H. destruct (match_at_sound _ _ _ H) as (st' & M & ->).
  destruct (Matches_plus_cls (or_introl M)) as (n & Hn & Hall & ->).
  cbn [m_start m_end group1 m_pos m_rest m_group advance] in *.
  replace (pos + n - pos) with n by lia.
  rewrite (non_space_blank _ Hall). split; [reflexivity|simpl; lia].
Qed.

(** r'\s+(c)' with [c] of a class, replaced by the group. *)
Lemma spaces_before_chunk (p : char -> bool) (pos : nat) (s : str) (m : match_obj) :
  match_at (Seq [Plus (Cls isspace); Grp (Cls p)]) pos s = Some m ->
  non_space (expand [TGroup1] m) = non_space (firstn (m_end m - m_start m) s) /\
  List.length (expand [TGroup1] m) <= m_end m - m_start m.
Proof.
  intros H. destruct (match_at_sound _ _ _ H) as (st' & M & ->).
  apply Matches_cat in M. destruct M as (st1 & M1 & M2).
  destruct (Matches_plus_cls (or_introl M1)) as (n & Hn & Hall & ->).
  apply Matches_grp in M2. destruct M2 as (st2 & M2 & ->).
  destruct (Matches_cls M2) as (c & s' & E & Hp & ->).
  cbn [m_start m_end group1 m_pos m_rest m_group advance] in *.
  rewrite E.
  replace (S (pos + n) - (pos + n)) with 1 by lia.
  replace (S (pos + n) - pos) with (S n) by lia.
  rewrite (firstn_succ_skipn _ _ E), non_space_app, (non_space_blank _ Hall).
  simpl. rewrite ?app_nil_r. split; [reflexivity|lia].
Qed.

(** r'\(\s+' replaced by the parenthesis. *)
Lemma spaces_after_chunk (x : char) (pos : nat) (s : str) (m : match_obj) :
  match_at (Seq [Chr x; Plus (Cls isspace)]) pos s = Some m ->
  non_space (expand [TChr x] m) = non_space (firstn (m_end m - m_start m) s) /\
  List.length (expand [TChr x] m) <= m_end m - m_start m.
Proof.
  intros H. destruct (match_at_sound _ _ _ H) as (st' & M & ->).
  apply Matches_cat in M. destruct M as (st1 & M1 & M2).
  destruct (Matches_cls M1) as (c & s' & E & Hp & ->).
  destruct (Matches_plus_cls (or_introl M2)) as (n & Hn & Hall & ->).
  cbn [m_start m_end group1 m_pos m_rest m_group advance] in *.
  subst s. apply N.eqb_eq in Hp. subst c.
  replace (S pos + n - pos) with (S n) by lia.
  cbn [firstn].
  rewrite non_space_cons, (non_space_blank _ Hall), app_nil_r.
  split; [reflexivity|simpl; lia].
Qed.

(** r'\s+\)' replaced by the parenthesis. *)
Lemma spaces_before_char_chunk (x : char) (pos : nat) (s : str) (m : match_obj) :
  match_at (Seq [Plus (Cls isspace); Chr x]) pos s = Some m ->
  non_space (expand [TChr x] m) = non_space (firstn (m_end m - m_start m) s) /\
  List.length (expand [TChr x] m) <= m_end m - m_start m.
Proof.
  intros H. destruct (match_at_sound _ _ _ H) as (st' & M & ->).
  apply Matches_cat in M. destruct M as (st1 & M1 & M2).
  destruct (Matches_plus_cls (or_introl M1)) as (n & Hn & Hall & ->).
  destruct (Matches_cls M2) as (c & s' & E & Hp & ->).
  cbn [m_start m_end group1 m_pos m_rest m_group advance] in *.
  apply N.eqb_eq in Hp. subst c.
  replace (S (pos + n) - pos) with (S n) by lia.
  rewrite (firstn_succ_skipn _ _ E), non_space_app, (non_space_blank _ Hall).
  simpl. split; [reflexivity|lia].
Qed.

(** X18: [clean_text_content] changes whitespace only and shortens only:
    the characters of the result that are not whitespace are those of the
    text, in the same order, and the result is not longer than the
    text. *)
Theorem X18_cleaning_changes_whitespace_only (text : str) :
  non_space (clean_text_content text) = non_space text /\
  List.length (clean_text_content text) <= List.length text.
Proof.
  unfold clean_text_content. destruct text as [|c t]; [split; reflexivity|].
  set (t0 := c :: t).
  set (t1 := re_sub (Plus (Cls isspace)) [TChr 0x20%N] t0).
  set (t2 := strip t1).
  set (t3 := re_sub (Seq [Plus (Cls isspace); Grp (Cls sentence_end)]) [TGroup1] t2).
  set (t4 := re_sub (Seq [Plus (Cls isspace); Grp (Cls comma_semicolon)]) [TGroup1] t3).
  set (t5 := re_sub (Seq [Chr 0x28%N; Plus (Cls isspace)]) [TChr 0x28%N] t4).
  destruct (re_sub_keeps_non_space _ _ t0 spaces_chunk) as [N1 L1].
  pose proof (non_space_strip t1) as N2. pose proof (length_strip t1) as L2.
  destruct (re_sub_keeps_non_space _ _ t2 (spaces_before_chunk sentence_end))
    as [N3 L3].
  destruct (re_sub_keeps_non_space _ _ t3 (spaces_before_chunk comma_semicolon))
    as [N4 L4].
  destruct (re_sub_keeps_non_space _ _ t4 (spaces_after_chunk 0x28%N)) as [N5 L5].
  destruct (re_sub_keeps_non_space _ _ t5 (spaces_before_char_chunk 0x29%N))
    as [N6 L6].
  fold t1 in N1, L1. fold t2 in N2, L2. fold t3 in N3, L3. fold t4 in N4, L4.
  fold t5 in N5, L5.
  split.
  - now rewrite N6, N5, N4, N3, N2, N1.
  - lia.
Qed.

End Cleaning.

(* ------------------------------------------------------------------ *)
(** ** The characters of the person fields *)

Section PersonCharacters.
Context {U : UnicodeDB}.
















End PersonCharacters.

(* ------------------------------------------------------------------ *)
(** ** The properties on concrete inputs *)

Section MoreInstances.
Import Scenario Examples.
Local Existing Instance basic_latin.

Lemma X2_triggers_witness :
  clean_and_merge_paragraphs [heading1; heading2] = Ok [heading1; heading2].
Proof.
  apply (@X2_triggers_are_never_merged basic_latin [heading1; heading2]).
  repeat constructor; intros _; vm_compute; reflexivity.
Defined.

Lemma X3_sentences_witness :
  clean_and_merge_paragraphs [sentence1; sentence2] = Ok [sentence1; sentence2].
Proof.
  apply (@X3_sentences_are_never_merged basic_latin [sentence1; sentence2]).
  repeat constructor; intros _; vm_compute; reflexivity.
Defined.

Lemma X8_merge_witness :
  _should_merge_texts (lit "It rained all day.") (lit "we stayed in.") = false /\
  _should_merge_texts (lit "it rained all day") (lit "and we stayed in") = true.
Proof.
  split.
  - apply (proj1 (X8_sentence_end_and_lowercase
                    (lit "It rained all day.") (lit "we stayed in."))).
    reflexivity.
  - apply (proj2 (X8_sentence_end_and_lowercase
                    (lit "it rained all day") (lit "and we stayed in")));
      reflexivity.
Defined.


Lemma X10_wrapped_once_witness :
  apply_html_formatting B3 = lit "<i>of an independent candidate.</i>".
Proof.
  apply (@X10_whole_text_wrapped_once B3
           (lit "of an independent candidate.")
           [Style (Some (lit "of an independent candidate.")) (Some true)
                  (Some false) None (Some 12%Q)]).
  - reflexivity.
  - discriminate.
  - reflexivity.
  - reflexivity.
  - repeat constructor.
Defined.

Lemma X11_comics_witness :
  exists r,
    smart_classify_content default_rules [comics_line] = Ok r /\
    Category r = [0x6f2b; 0x756b; 0x985e]%N.
Proof.
  assert (E : exists r, smart_classify_content default_rules [comics_line] = Ok r)
    by (eexists; vm_compute; reflexivity).
  destruct E as [r E]. exists r. split; [exact E|].
  apply (@X11_comics_have_priority basic_latin default_rules [comics_line]
           [comics_line] r ([0x6f2b; 0x756b]%N ++ lit " series") E).
  - vm_compute; reflexivity.
  - left. vm_compute; reflexivity.
  - vm_compute; reflexivity.
Defined.

Lemma X12_title_witness :
  exists r,
    smart_classify_content default_rules [A1; A2] = Ok r /\
    startswith (Title r) b_open = true.
Proof.
  assert (E : exists r, smart_classify_content default_rules [A1; A2] = Ok r /\
                        Title r <> [])
    by (eexists; split; [vm_compute; reflexivity|vm_compute; discriminate]).
  assert (M : exists merged, clean_and_merge_paragraphs [A1; A2] = Ok merged)
    by (eexists; vm_compute; reflexivity).
  destruct E as (r & E & Hne). destruct M as [merged M]. exists r.
  split; [exact E|].
  destruct (@X12_title_is_a_bold_paragraph basic_latin default_rules [A1; A2]
              merged r E M) as [H|[H _]]; [contradiction|exact H].
Defined.

Lemma X13_person_witness :
  exists r,
    smart_classify_content default_rules [credit_line] = Ok r /\
    person_ok (Author r) /\ person_ok (Translator r) /\ person_ok (Illustrator r).
Proof.
  assert (E : exists r, smart_classify_content default_rules [credit_line] = Ok r)
    by (eexists; vm_compute; reflexivity).
  destruct E as [r E]. exists r. split; [exact E|].
  exact (@X13_person_fields_empty_or_names basic_latin default_rules
           [credit_line] r E).
Defined.


Lemma X15_blank_witness :
  smart_classify_content default_rules [blank_line] = Ok empty_record.
Proof.
  apply (@X15_blank_input_gives_empty_record basic_latin default_rules [blank_line]).
  reflexivity.
Defined.


End MoreInstances.
